(** * The practice-form page object (cypress/pages/practice-form.js)

    A shallow embedding of the page object: JavaScript values with their
    truthiness and string conversion, the Cypress command queue as the state
    of a small state-and-exception monad, and the functions [visit], [fill],
    [selectGender], [selectSubjects], [selectHobbies], [uploadPicture],
    [selectLocation] and [validateSubmission] written statement by
    statement. *)

From Stdlib Require Import ZArith String Ascii List DecimalString.
From stdpp Require Import base option list gmap strings.

Open Scope string_scope.
Set Warnings "-register-all".
#[local] Arguments String.append !s1 s2 : simpl nomatch.

(** ** JavaScript values *)

(** The values a fixture or a test can put in a form-value object.
    [VNum] stands for an integral number (its decimal rendering is the
    JavaScript one below 10^21); [VObj] is a plain object other than an
    array, of which the page object only ever observes that it is truthy,
    is no array and has no string or array methods. *)
Inductive value : Type :=
| VUndefined
| VNull
| VBool (b : bool)
| VNum (n : Z)
| VStr (s : string)
| VArr (elems : list value)
| VObj.

(** A form-value object; a key bound to [VUndefined] is a property that
    is present and holds undefined. *)
Abbreviation obj := (gmap string value).

(** [o[k]] and [o.k]: a missing property reads as undefined. *)
Definition get (o : obj) (k : string) : value := default VUndefined (o !! k).

(** ToBoolean. *)
Definition truthy (v : value) : bool :=
  match v with
  | VUndefined | VNull => false
  | VBool b => b
  | VNum n => negb (n =? 0)%Z
  | VStr s => negb (String.eqb s "")
  | VArr _ | VObj => true
  end.

Definition isArray (v : value) : bool :=
  match v with VArr _ => true | _ => false end.

(** The separator-joined rendering of a list, shared by [toString] on
    arrays and by [Array.prototype.join]. *)
Definition joinWith {A : Type} (f : A -> string) (sep : string)
  : list A -> string :=
  fix go (l : list A) : string :=
    match l with
    | [] => ""
    | x :: r => match r with
                | [] => f x
                | _ :: _ => f x +:+ sep +:+ go r
                end
    end.

(** ToString. An array renders as its elements joined by a comma, where
    undefined and null elements render as the empty string. *)
Fixpoint toString (v : value) : string :=
  match v with
  | VUndefined => "undefined"
  | VNull => "null"
  | VBool true => "true"
  | VBool false => "false"
  | VNum n => NilZero.string_of_int (Z.to_int n)
  | VStr s => s
  | VArr l =>
      joinWith (fun x => match x with
                         | VUndefined | VNull => ""
                         | _ => toString x
                         end) "," l
  | VObj => "[object Object]"
  end.

(** The rendering [join] gives an element. *)
Definition joinElem (v : value) : string :=
  match v with
  | VUndefined | VNull => ""
  | _ => toString v
  end.

(** [elems.join(sep)]. *)
Definition join (elems : list value) (sep : string) : string :=
  joinWith joinElem sep elems.

(** [s.lastIndexOf(c)] for a one-character needle: the index of the last
    occurrence, or -1. *)
Fixpoint lastIndexOf (c : ascii) (s : string) : Z :=
  match s with
  | EmptyString => (-1)%Z
  | String a r =>
      let i := lastIndexOf c r in
      if (0 <=? i)%Z then (i + 1)%Z
      else if Ascii.eqb a c then 0%Z else (-1)%Z
  end.

Fixpoint dropString (n : nat) (s : string) : string :=
  match n, s with
  | O, _ => s
  | S n', String _ r => dropString n' r
  | S _, EmptyString => EmptyString
  end.

(** [s.slice(start)]: a negative start counts from the end. *)
Definition slice (start : Z) (s : string) : string :=
  let len := Z.of_nat (String.length s) in
  let from := if (start <? 0)%Z then Z.max (len + start) 0 else Z.min start len in
  dropString (Z.to_nat from) s.

(** [l.lastIndexOf('/')] on an array: strict equality selects the
    elements that are the string itself. *)
Definition isSlashStr (v : value) : bool :=
  match v with VStr s => String.eqb s "/" | _ => false end.

Fixpoint lastIndexOfArr (l : list value) : Z :=
  match l with
  | [] => (-1)%Z
  | a :: r =>
      let i := lastIndexOfArr r in
      if (0 <=? i)%Z then (i + 1)%Z
      else if isSlashStr a then 0%Z else (-1)%Z
  end.

(** [l.slice(start)] on an array. *)
Definition sliceArr (start : Z) (l : list value) : list value :=
  let len := Z.of_nat (length l) in
  let from := if (start <? 0)%Z then Z.max (len + start) 0 else Z.min start len in
  drop (Z.to_nat from) l.

(** ** Completions and the state-and-exception monad *)

(** The only exception the page object can raise by itself: calling a
    method a value does not have, or reading a property of null. *)
Inductive exn : Type := TypeError.

Inductive completion (A : Type) : Type :=
| Normal (a : A)
| Throw (e : exn).
Arguments Normal {A} a.
Arguments Throw {A} e.

(** A computation over a mutable state [S] that may throw; a throw loses
    the state. *)
Definition M (S A : Type) : Type := S -> completion (A * S).

Definition ret {S A : Type} (a : A) : M S A := fun s => Normal (a, s).

Definition bind {S A B : Type} (c : M S A) (k : A -> M S B) : M S B :=
  fun s => match c s with
           | Normal (a, s') => k a s'
           | Throw e => Throw e
           end.

Definition throw {S A : Type} (e : exn) : M S A := fun _ => Throw e.

Definition modify {S : Type} (f : S -> S) : M S unit :=
  fun s => Normal (tt, f s).

Declare Scope js_scope.
Delimit Scope js_scope with js.
Notation "'let*' x ':=' c 'in' k" := (bind c (fun x => k))
  (at level 10, x name, c at level 100, k at level 200) : js_scope.
Notation "c ';;;' k" := (bind c (fun _ => k))
  (at level 100, k at level 200, right associativity) : js_scope.
Open Scope js_scope.

(** [l.forEach(f)] for a callback with effects. *)
Fixpoint forEach {S A : Type} (l : list A) (f : A -> M S unit) : M S unit :=
  match l with
  | [] => ret tt
  | x :: r => f x ;;; forEach r f
  end.

(** [if (c) { body }] with no else branch. *)
Definition when {S : Type} (c : bool) (body : M S unit) : M S unit :=
  if c then body else ret tt.

(** ** The Cypress command queue *)

(** One Cypress (or table helper) command with its arguments. *)
Inductive command : Type :=
| Visit (u : string)
| Get (selector : value)
| Contains (content : value)
| Wrap (subject : value)
| Then
| Siblings (selector : value)
| TypeText (text : value)
| Click (force : bool)
| ShouldContain (text : string)
| ShouldHaveLength (n : nat)
| SelectDate (date : value)
| AttachFile (file : value)
| GetCell (keyColumn : string) (key : string) (valueColumn : string)
| ExpectContain (expected : value)
| ExpectEmpty.

(** One chained expression [cy.a(..).b(..).c(..)]: the parent command and
    the commands chained off it. *)
Definition chain : Type := list command.

(** The commands in the order Cypress runs them. *)
Abbreviation Cy := (M (list chain)).

Definition enqueue (c : chain) : Cy unit := modify (fun q => (q ++ [c])%list).

(** Running a computation from an empty queue: the commands it leaves. *)
Definition commands {A : Type} (c : Cy A) : completion (list chain) :=
  match c [] with
  | Normal (_, q) => Normal q
  | Throw e => Throw e
  end.

(** ** Page element selectors *)

Definition dq : string := String "034"%char EmptyString.

Definition url : string := "automation-practice-form".
Definition pageHeader : string := ".main-header".
Definition pageTitle : string := "Practice Form".

Definition form : obj :=
  list_to_map
    [ ("firstName", VStr "#firstName");
      ("lastName", VStr "#lastName");
      ("email", VStr "#userEmail");
      ("gender", VStr ("[type=" +:+ dq +:+ "radio" +:+ dq +:+ "]"));
      ("mobile", VStr "#userNumber");
      ("dob", VStr "#dateOfBirthInput");
      ("subjects", VStr "#subjectsContainer");
      ("subjectsDropDown", VStr ".subjects-auto-complete__menu");
      ("hobbies", VStr ("[type=" +:+ dq +:+ "checkbox" +:+ dq +:+ "]"));
      ("picture", VStr "#uploadPicture");
      ("address", VStr "#currentAddress");
      ("state", VStr "#state");
      ("city", VStr "#city") ].

Definition submitButton : string := "#submit".
Definition modal : string := ".modal-content".

(** [s + v] for a string [s]: string concatenation with ToString of [v]. *)
Definition addStr (s : string) (v : value) : string := s +:+ toString v.

(** [v + s] for a string [s]. *)
Definition strAdd (v : value) (s : string) : string := toString v +:+ s.

(** ** Fixtures *)

(** submission-mapping.json, [direct] entries. *)
Record DirectMapping : Type := {
  direct_selector : string;
  direct_label : string
}.

(** submission-mapping.json, [concat] entries; the source spells the
    property [delimeter]. *)
Record ConcatMapping : Type := {
  concat_selectors : list string;
  concat_label : string;
  delimeter : string
}.

(** submission-mapping.json, [list] entries. *)
Record ListMapping : Type := {
  list_selector : string;
  list_label : string
}.

Record SubmissionMapping : Type := {
  sm_direct : list DirectMapping;
  sm_concat : list ConcatMapping;
  sm_list : list ListMapping;
  sm_picture : string;
  sm_dob : string
}.

(** ** The date collaborator *)

Inductive month : Type :=
| January | February | March | April | May | June
| July | August | September | October | November | December.

Record Date : Type := {
  year : nat;
  monthOf : month;
  day : nat
}.

Definition monthName (m : month) : string :=
  match m with
  | January => "January" | February => "February" | March => "March"
  | April => "April" | May => "May" | June => "June"
  | July => "July" | August => "August" | September => "September"
  | October => "October" | November => "November" | December => "December"
  end.

Definition decimal (n : nat) : string := NilZero.string_of_uint (Nat.to_uint n).

Fixpoint zeros (n : nat) : string :=
  match n with
  | O => EmptyString
  | S n' => String "0" (zeros n')
  end.

Definition padStart (width : nat) (s : string) : string :=
  zeros (width - String.length s) +:+ s.

(** Modelled from the spec: the date-formatting collaborator (dayjs) is
    not part of the page object; a valid date renders as DD Month,YYYY,
    the day on two digits and the year on four. *)
Definition format_DD_MMMM_YYYY (d : option Date) : string :=
  match d with
  | Some d =>
      padStart 2 (decimal (day d)) +:+ " " +:+ monthName (monthOf d)
      +:+ "," +:+ padStart 4 (decimal (year d))
  | None => "Invalid Date"
  end.

(** ** Records built by validateSubmission *)

Record PopulatedField : Type := {
  label : string;
  expValue : value
}.

(** The two local arrays of [validateSubmission]. *)
Record locals : Type := {
  populatedFields : list PopulatedField;
  missingFields : list string
}.

Definition pushPopulated (r : PopulatedField) : M locals unit :=
  modify (fun st => {| populatedFields := (populatedFields st ++ [r])%list;
                       missingFields := missingFields st |}).

Definition pushMissing (l : string) : M locals unit :=
  modify (fun st => {| populatedFields := populatedFields st;
                       missingFields := (missingFields st ++ [l])%list |}).

(** ** Effects that only append *)

(** [emits act c w]: from every state, [c] returns normally and leaves the
    state extended by [w]. *)
Definition emits {S W : Type} (act : S -> W -> S) (c : M S unit) (w : W) : Prop :=
  forall s, c s = Normal (tt, act s w).

(** What a computation added to the two local arrays. *)
Definition contribution : Type := (list PopulatedField * list string)%type.

Definition extend (st : locals) (w : contribution) : locals :=
  {| populatedFields := (populatedFields st ++ w.1)%list;
     missingFields := (missingFields st ++ w.2)%list |}.

Definition joinContributions (a b : contribution) : contribution :=
  ((a.1 ++ b.1)%list, (a.2 ++ b.2)%list).

Definition flatContributions {A : Type} (f : A -> contribution) (l : list A)
  : contribution :=
  (flat_map (fun x => (f x).1) l, flat_map (fun x => (f x).2) l).

(** ** Which control a chain acts on *)

(** The chain starts by querying exactly this selector. *)
Definition touches (selector : string) (c : chain) : bool :=
  match c with
  | Get (VStr s) :: _ => String.eqb selector s
  | _ => false
  end.

(** The chain starts by querying a selector that extends this one, as the
    radio selector with its value attribute does. *)
Definition touchesPrefix (selector : string) (c : chain) : bool :=
  match c with
  | Get (VStr s) :: _ => String.prefix selector s
  | _ => false
  end.

(** The chain narrows its subject to the siblings matching the selector,
    as the hobby checkboxes are reached. *)
Definition touchesSibling (selector : string) (c : chain) : bool :=
  existsb (fun k => match k with
                    | Siblings (VStr s) => String.eqb selector s
                    | _ => false
                    end) c.

Definition selectorOf (field : string) : string :=
  match get form field with
  | VStr s => s
  | _ => EmptyString
  end.

(** The keys of [form] whose control is a plain text input. *)
Definition textKeys : list string :=
  ["firstName"; "lastName"; "email"; "mobile"; "address"].

Definition isTextKey (field : string) : bool :=
  existsb (String.eqb field) textKeys.

(** The controls of the form that [fill] can act on. *)
Inductive control : Type :=
| TextInput (field : string)
| DateOfBirth
| Gender
| Subjects
| Hobbies
| Picture
| State
| City.

(** The chain acts on the control. *)
Definition onControl (k : control) (c : chain) : bool :=
  match k with
  | TextInput field => touches (selectorOf field) c
  | DateOfBirth => touches (selectorOf "dob") c
  | Gender => touchesPrefix (selectorOf "gender") c
  | Subjects =>
      touches (selectorOf "subjects") c || touches (selectorOf "subjectsDropDown") c
  | Hobbies => touchesSibling (selectorOf "hobbies") c
  | Picture => touches (selectorOf "picture") c
  | State => touches (selectorOf "state") c
  | City => touches (selectorOf "city") c
  end.

(** A text input is named by one of the text keys of [form]. *)
Definition validControl (k : control) : bool :=
  match k with
  | TextInput field => isTextKey field
  | _ => true
  end.

(** A value [selectSubjects] and [selectHobbies] accept: the parameter
    left out, or an array. *)
Definition isArrayParam (v : value) : bool :=
  match v with
  | VUndefined | VArr _ => true
  | _ => false
  end.

Definition isString (v : value) : bool :=
  match v with VStr _ => true | _ => false end.

(** No character of the string is a slash. *)
Fixpoint noSlash (s : string) : bool :=
  match s with
  | EmptyString => true
  | String a r => negb (Ascii.eqb a "/") && noSlash r
  end.

(** The string ends with a slash. *)
Fixpoint endsWithSlash (s : string) : bool :=
  match s with
  | EmptyString => false
  | String a EmptyString => Ascii.eqb a "/"
  | String _ r => endsWithSlash r
  end.

(** A value that is falsy or an empty list. *)
Definition falsyOrEmpty (v : value) : bool :=
  match v with
  | VArr [] => true
  | _ => negb (truthy v)
  end.

(** No label occurs twice. *)
Fixpoint distinct (l : list string) : bool :=
  match l with
  | [] => true
  | x :: r => negb (existsb (String.eqb x) r) && distinct r
  end.

(** The delimiter put before every part after the first. *)
Definition appendParts (delim : string) (acc : string) (parts : list string) : string :=
  fold_left (fun a p => a +:+ (if (String.length a =? 0)%nat then p else delim +:+ p))
            parts acc.

(** ** Sample fixtures *)

(** A submission mapping in the format of submission-mapping.json, for
    running the page object on concrete inputs. *)
Definition sampleMapping : SubmissionMapping :=
  {| sm_direct :=
       [ {| direct_selector := "email"; direct_label := "Student Email" |};
         {| direct_selector := "gender"; direct_label := "Gender" |};
         {| direct_selector := "mobile"; direct_label := "Mobile" |};
         {| direct_selector := "address"; direct_label := "Address" |} ];
     sm_concat :=
       [ {| concat_selectors := ["firstName"; "lastName"];
            concat_label := "Student Name"; delimeter := " " |};
         {| concat_selectors := ["state"; "city"];
            concat_label := "State and City"; delimeter := " " |} ];
     sm_list :=
       [ {| list_selector := "subjects"; list_label := "Subjects" |};
         {| list_selector := "hobbies"; list_label := "Hobbies" |} ];
     sm_picture := "Picture";
     sm_dob := "Date of Birth" |}.

Definition sampleToday : Date :=
  {| year := 2024; monthOf := March; day := 5 |}.

(** A parser that accepts nothing: enough where no date is given. *)
Definition noParse (_ : value) : option Date := None.

(** The values and the mapping of the concatenation example. *)
Definition policyValues : obj :=
  {[ "a" := VStr "X"; "b" := VArr [VStr "Y"; VStr "Z"] ]}.

Definition policyMapping (lbl : string) : ConcatMapping :=
  {| concat_selectors := ["a"; "b"]; concat_label := lbl; delimeter := " " |}.

Definition studentName : ConcatMapping :=
  {| concat_selectors := ["firstName"; "lastName"];
     concat_label := "Student Name"; delimeter := " " |}.

Definition stateAndCity : ConcatMapping :=
  {| concat_selectors := ["state"; "city"];
     concat_label := "State and City"; delimeter := " " |}.

Definition janeValues : obj :=
  {[ "firstName" := VStr "Jane"; "lastName" := VStr "Doe";
     "gender" := VStr "Female"; "hobbies" := VArr [VStr "Sports"] ]}.

(** The call [validateSubmission({})]. *)
Definition noValues : obj := ∅.

Definition emptyLocation : obj :=
  {[ "state" := VStr ""; "city" := VArr [] ]}.

Definition photoValues : obj :=
  {[ "picture" := VStr "/fixtures/images/photo.png" ]}.

Definition plainPhotoValues : obj := {[ "picture" := VStr "photo.png" ]}.

Definition folderValues : obj := {[ "picture" := VStr "images/" ]}.

Definition noSubjectsValues : obj := {[ "subjects" := VArr [] ]}.

Definition undefinedEmailValues : obj := {[ "email" := VUndefined ]}.

(** Values with a key no mapping and no helper reads. *)
Definition janeWithNickname : obj := <[ "nickname" := VStr "JD" ]> janeValues.

Definition emailValues : obj := {[ "email" := VStr "jane@example.com" ]}.

Definition blankHobbiesValues : obj := {[ "hobbies" := VArr [VStr ""] ]}.

Definition subjectsAsTextValues : obj := {[ "subjects" := VStr "Maths" ]}.

Definition folderPhotoValues : obj := {[ "picture" := VStr "images/" ]}.

Definition nullSubjectsValues : obj :=
  {[ "firstName" := VStr "Jane"; "subjects" := VNull ]}.

Definition blankValues : obj :=
  {[ "firstName" := VStr ""; "gender" := VNull; "subjects" := VArr [] ]}.

Definition twoSubjectsValues : obj :=
  {[ "subjects" := VArr [VStr "Maths"; VStr "Physics"] ]}.

Section PracticeForm.

(** default-values.json, the [text] list of field-types.json and
    submission-mapping.json. *)
Variable defaultValues : obj.
Variable fieldTypes_text : list string.
Variable submissionMapping : SubmissionMapping.

(** Modelled from the spec: the date collaborator parses an optional date
    input or defaults to now; [parseDate] is its parser on an input that
    is given ([None] for an invalid date) and [now] the current date. *)
Variable now : Date.
Variable parseDate : value -> option Date.

Definition dayjs (v : value) : option Date :=
  match v with
  | VUndefined => Some now
  | _ => parseDate v
  end.

(** ** The page object *)

Definition visit : Cy unit :=
  enqueue [Visit url] ;;;
  enqueue [Get (VStr pageHeader); ShouldContain pageTitle].

Definition selectGender (gender : value) : Cy unit :=
  if negb (truthy gender) then ret tt
  else
    enqueue [Get (VStr (strAdd (get form "gender")
                          ("[value=" +:+ dq +:+ toString gender +:+ dq +:+ "]")));
             Click true].

(** A parameter with the default [[]]: the default replaces undefined
    only, and any other value that is no array has no [forEach]. *)
Definition arrayParam (v : value) : completion (list value) :=
  match v with
  | VUndefined => Normal []
  | VArr l => Normal l
  | _ => Throw TypeError
  end.

Definition liftC {S A : Type} (c : completion A) : M S A :=
  fun s => match c with
           | Normal a => Normal (a, s)
           | Throw e => Throw e
           end.

Definition selectSubjects (subjects : value) : Cy unit :=
  let* subjects := liftC (arrayParam subjects) in
  forEach subjects (fun subject =>
    enqueue [Get (get form "subjects"); TypeText subject] ;;;
    enqueue [Get (get form "subjectsDropDown"); ShouldHaveLength 1; Click false]).

Definition selectHobbies (hobbies : value) : Cy unit :=
  let* hobbies := liftC (arrayParam hobbies) in
  forEach hobbies (fun hobby =>
    enqueue [Contains hobby; Siblings (get form "hobbies"); Click true]).

Definition uploadPicture (file : value) : Cy unit :=
  if negb (truthy file) then ret tt
  else enqueue [Get (get form "picture"); AttachFile file].

Definition selectLocation (state city : value) : Cy unit :=
  when (truthy state)
    (enqueue [Get (get form "state"); TypeText (VStr (strAdd state "{enter}"))] ;;;
     when (truthy city)
       (enqueue [Get (get form "city"); TypeText (VStr (strAdd city "{enter}"))])).

(** [fill(formValues = defaultValues)]; [None] is a call without the
    argument. The callback of [then] runs when Cypress reaches it and its
    commands run before those enqueued after it, so the queue below is in
    execution order. *)
Definition fill (formValues : option obj) : Cy unit :=
  let formValues := default defaultValues formValues in
  forEach fieldTypes_text (fun field =>
    let value := get formValues field in
    enqueue [Wrap value; Then] ;;;
    when (truthy value)
      (enqueue [Get (get form field); TypeText value])) ;;;
  when (truthy (get formValues "dob"))
    (enqueue [Get (get form "dob"); SelectDate (get formValues "dob")]) ;;;
  selectGender (get formValues "gender") ;;;
  selectSubjects (get formValues "subjects") ;;;
  selectHobbies (get formValues "hobbies") ;;;
  uploadPicture (get formValues "picture") ;;;
  selectLocation (get formValues "state") (get formValues "city").

(** The expected string of one concatenated mapping: the inner
    [mapping.selectors.forEach], threading [expValue]. *)
Definition concatStep (expectedValues : obj) (mapping : ConcatMapping)
    (expValue : string) (selector : string) : string :=
  let rawvalue := get expectedValues selector in
  let value :=
    match rawvalue with
    | VArr elems => VStr (join elems (delimeter mapping))
    | _ => rawvalue
    end in
  if truthy value then
    addStr expValue
      (if (String.length expValue =? 0)%nat then value
       else VStr (addStr (delimeter mapping) value))
  else expValue.

Definition concatExpValue (expectedValues : obj) (mapping : ConcatMapping)
  : string :=
  fold_left (concatStep expectedValues mapping) (concat_selectors mapping) "".

(** [picture.slice(picture.lastIndexOf('/') + 1)]: strings and arrays
    have both methods, other truthy values have neither. *)
Definition pictureName (picture : value) : completion value :=
  match picture with
  | VStr s => Normal (VStr (slice (lastIndexOf "/" s + 1) s))
  | VArr l => Normal (VArr (sliceArr (lastIndexOfArr l + 1) l))
  | _ => Throw TypeError
  end.

(** [values.forEach] in the list loop: only an array has it. *)
Definition forEachTarget (values : value) : completion (list value) :=
  match values with
  | VArr l => Normal l
  | _ => Throw TypeError
  end.

(** Lines 170 to 245 of [validateSubmission]: the two local arrays as
    they stand when the assertion loops start. *)
Definition validateSubmission_fields (expectedValues : obj) : M locals unit :=
  forEach (sm_direct submissionMapping) (fun mapping =>
    if truthy (get expectedValues (direct_selector mapping)) then
      pushPopulated {| label := direct_label mapping;
                       expValue := get expectedValues (direct_selector mapping) |}
    else pushMissing (direct_label mapping)) ;;;
  forEach (sm_concat submissionMapping) (fun mapping =>
    let expValue := concatExpValue expectedValues mapping in
    if truthy (VStr expValue) then
      pushPopulated {| label := concat_label mapping; expValue := VStr expValue |}
    else pushMissing (concat_label mapping)) ;;;
  forEach (sm_list submissionMapping) (fun mapping =>
    let values := get expectedValues (list_selector mapping) in
    if truthy values then
      let* elems := liftC (forEachTarget values) in
      forEach elems (fun value =>
        pushPopulated {| label := list_label mapping; expValue := value |})
    else pushMissing (list_label mapping)) ;;;
  (if truthy (get expectedValues "picture") then
     let* name := liftC (pictureName (get expectedValues "picture")) in
     pushPopulated {| label := sm_picture submissionMapping; expValue := name |}
   else pushMissing (sm_picture submissionMapping)) ;;;
  pushPopulated
    {| label := sm_dob submissionMapping;
       expValue := VStr (format_DD_MMMM_YYYY (dayjs (get expectedValues "dob"))) |}.

Definition emptyLocals : locals :=
  {| populatedFields := []; missingFields := [] |}.

(** The arrays [validateSubmission] has built when its loops over the
    mapping are done, or the exception that ended it. *)
Definition fieldsOf (expectedValues : obj) : completion locals :=
  match validateSubmission_fields expectedValues emptyLocals with
  | Normal (_, st) => Normal st
  | Throw e => Throw e
  end.

Definition validateSubmission (expectedValues : obj) : Cy unit :=
  let* st := liftC (fieldsOf expectedValues) in
  forEach (populatedFields st) (fun mapping =>
    enqueue [GetCell "Label" (label mapping) "Values"; Then;
             ExpectContain (expValue mapping)]) ;;;
  forEach (missingFields st) (fun field =>
    enqueue [GetCell "Label" field "Values"; Then; ExpectEmpty]).

(** The bodies of the list loop and of the picture branch, named. *)
Definition listStep (expectedValues : obj) (mapping : ListMapping) : M locals unit :=
  let values := get expectedValues (list_selector mapping) in
  if truthy values then
    let* elems := liftC (forEachTarget values) in
    forEach elems (fun value =>
      pushPopulated {| label := list_label mapping; expValue := value |})
  else pushMissing (list_label mapping).

Definition pictureStep (expectedValues : obj) : M locals unit :=
  if truthy (get expectedValues "picture") then
    let* name := liftC (pictureName (get expectedValues "picture")) in
    pushPopulated {| label := sm_picture submissionMapping; expValue := name |}
  else pushMissing (sm_picture submissionMapping).

(** ** What each part of validateSubmission adds to the local arrays *)

Definition directFields (expectedValues : obj) (mapping : DirectMapping)
  : contribution :=
  let v := get expectedValues (direct_selector mapping) in
  if truthy v then ([ {| label := direct_label mapping; expValue := v |} ], [])
  else ([], [direct_label mapping]).

Definition concatFields (expectedValues : obj) (mapping : ConcatMapping)
  : contribution :=
  let e := concatExpValue expectedValues mapping in
  if truthy (VStr e) then ([ {| label := concat_label mapping; expValue := VStr e |} ], [])
  else ([], [concat_label mapping]).

Definition listFields (expectedValues : obj) (mapping : ListMapping)
  : contribution :=
  match get expectedValues (list_selector mapping) with
  | VArr elems =>
      (map (fun v => {| label := list_label mapping; expValue := v |}) elems, [])
  | _ => ([], [list_label mapping])
  end.

Definition pictureFields (expectedValues : obj) : contribution :=
  let p := get expectedValues "picture" in
  if truthy p then
    match pictureName p with
    | Normal name => ([ {| label := sm_picture submissionMapping; expValue := name |} ], [])
    | Throw _ => ([], [])
    end
  else ([], [sm_picture submissionMapping]).

Definition dobField (expectedValues : obj) : PopulatedField :=
  {| label := sm_dob submissionMapping;
     expValue := VStr (format_DD_MMMM_YYYY (dayjs (get expectedValues "dob"))) |}.

Definition allFields (expectedValues : obj) : contribution :=
  joinContributions (flatContributions (directFields expectedValues)
                       (sm_direct submissionMapping))
    (joinContributions (flatContributions (concatFields expectedValues)
                          (sm_concat submissionMapping))
       (joinContributions (flatContributions (listFields expectedValues)
                             (sm_list submissionMapping))
          (joinContributions (pictureFields expectedValues)
             ([dobField expectedValues], [])))).

(** The values under which no method call of [validateSubmission] is on
    a value that lacks the method: every list field is falsy or an array,
    and the picture is falsy, a string or an array. *)
Definition wellTyped (expectedValues : obj) : bool :=
  forallb (fun mapping =>
             let v := get expectedValues (list_selector mapping) in
             negb (truthy v) || isArray v)
          (sm_list submissionMapping)
  && (let p := get expectedValues "picture" in
      negb (truthy p) || isString p || isArray p).

(** The labels of the submission mapping, category by category. *)
Definition labelsOf : list string :=
  (map direct_label (sm_direct submissionMapping)
   ++ map concat_label (sm_concat submissionMapping)
   ++ map list_label (sm_list submissionMapping)
   ++ [sm_picture submissionMapping; sm_dob submissionMapping])%list.

(** ** The concatenation policy as the specification words it *)

(** The part a selector contributes: its value, joined with the delimiter
    first when it is a list. *)
Definition concatPart (expectedValues : obj) (mapping : ConcatMapping)
    (selector : string) : value :=
  match get expectedValues selector with
  | VArr elems => VStr (join elems (delimeter mapping))
  | v => v
  end.

(** The non-empty parts in selector order, separated by the delimiter,
    with no leading delimiter. *)
Definition concatSpec (expectedValues : obj) (mapping : ConcatMapping) : string :=
  joinWith toString (delimeter mapping)
    (List.filter truthy
       (map (concatPart expectedValues mapping) (concat_selectors mapping))).

(** ** What the helpers of fill enqueue *)

Definition subjectCycle (subject : value) : list chain :=
  [ [Get (VStr "#subjectsContainer"); TypeText subject];
    [Get (VStr ".subjects-auto-complete__menu"); ShouldHaveLength 1; Click false] ].

Definition hobbyClick (hobby : value) : list chain :=
  [ [Contains hobby; Siblings (get form "hobbies"); Click true] ].

Definition arrayOf (v : value) : list value :=
  match v with VArr l => l | _ => [] end.

Definition textCommands (formValues : obj) (field : string) : list chain :=
  let value := get formValues field in
  ([Wrap value; Then] ::
   (if truthy value then [ [Get (get form field); TypeText value] ] else []))%list.

Definition dobCommands (formValues : obj) : list chain :=
  if truthy (get formValues "dob")
  then [ [Get (VStr "#dateOfBirthInput"); SelectDate (get formValues "dob")] ]
  else [].

Definition genderCommands (gender : value) : list chain :=
  if truthy gender
  then [ [Get (VStr (selectorOf "gender" +:+ "[value=" +:+ dq
                      +:+ toString gender +:+ dq +:+ "]"));
          Click true] ]
  else [].

Definition pictureCommands (file : value) : list chain :=
  if truthy file then [ [Get (VStr "#uploadPicture"); AttachFile file] ] else [].

Definition locationCommands (state city : value) : list chain :=
  if truthy state then
    ([Get (VStr "#state"); TypeText (VStr (toString state +:+ "{enter}"))] ::
     (if truthy city
      then [ [Get (VStr "#city"); TypeText (VStr (toString city +:+ "{enter}"))] ]
      else []))%list
  else [].

Definition fillCommands (formValues : obj) : list chain :=
  (flat_map (textCommands formValues) fieldTypes_text
   ++ dobCommands formValues
   ++ genderCommands (get formValues "gender")
   ++ flat_map subjectCycle (arrayOf (get formValues "subjects"))
   ++ flat_map hobbyClick (arrayOf (get formValues "hobbies"))
   ++ pictureCommands (get formValues "picture")
   ++ locationCommands (get formValues "state") (get formValues "city"))%list.

(** ** The keys the page object reads *)

(** The keys [validateSubmission] reads from its argument: the selectors
    of the mapping, and the two it names itself. *)
Definition keysRead : list string :=
  (map direct_selector (sm_direct submissionMapping)
   ++ flat_map concat_selectors (sm_concat submissionMapping)
   ++ map list_selector (sm_list submissionMapping)
   ++ ["picture"; "dob"])%list.

(** The keys [fill] reads from its argument. *)
Definition keysOfFill : list string :=
  (fieldTypes_text
   ++ ["dob"; "gender"; "subjects"; "hobbies"; "picture"; "state"; "city"])%list.

(** The assertion chains of the two final loops. *)
Definition containAssertion (r : PopulatedField) : chain :=
  [GetCell "Label" (label r) "Values"; Then; ExpectContain (expValue r)].

Definition emptyAssertion (field : string) : chain :=
  [GetCell "Label" field "Values"; Then; ExpectEmpty].

(** * Properties *)

(** ** Computations that only append to their state *)

Section Appending.

Context {S W : Type}.
Variable act : S -> W -> S.
Variable op : W -> W -> W.
Variable e : W.
Hypothesis act_unit : forall s, act s e = s.
Hypothesis act_op : forall s a b, act (act s a) b = act s (op a b).

Definition gather {A : Type} (g : A -> W) (l : list A) : W :=
  fold_right (fun x w => op (g x) w) e l.

Lemma emits_ret : emits act (ret tt) e.
Proof. intros s. unfold ret. by rewrite act_unit. Qed.

Lemma emits_bind (c k : M S unit) (a b : W) :
  emits act c a -> emits act k b -> emits act (c ;;; k) (op a b).
Proof.
  intros Hc Hk s. unfold bind. rewrite Hc, Hk. by rewrite act_op.
Qed.

Lemma emits_when (c : bool) (body : M S unit) (a : W) :
  emits act body a -> emits act (when c body) (if c then a else e).
Proof. destruct c; simpl; [done | intros _; apply emits_ret]. Qed.

Lemma emits_forEach {A : Type} (f : A -> M S unit) (g : A -> W) (l : list A) :
  (forall x, emits act (f x) (g x)) -> emits act (forEach l f) (gather g l).
Proof.
  intros Hf. induction l as [|x r IH]; simpl.
  - apply emits_ret.
  - apply emits_bind; [apply Hf | exact IH].
Qed.

Lemma emits_liftC {A : Type} (c : completion A) (a : A) (k : A -> M S unit) (w : W) :
  c = Normal a -> emits act (k a) w -> emits act (let* x := liftC c in k x) w.
Proof. intros -> Hk s. unfold bind, liftC. apply Hk. Qed.

Lemma throws_liftC {A : Type} (c : completion A) (x : exn) (k : A -> M S unit) (s : S) :
  c = Throw x -> (let* y := liftC c in k y) s = Throw x.
Proof. intros ->. reflexivity. Qed.

End Appending.

Lemma gather_app {A B : Type} (g : A -> list B) (l : list A) :
  gather (@app B) [] g l = flat_map g l.
Proof. induction l as [|x r IH]; simpl; [done | by rewrite IH]. Qed.

Lemma gather_contributions {A : Type} (g : A -> contribution) (l : list A) :
  gather joinContributions ([], []) g l = flatContributions g l.
Proof.
  induction l as [|x r IH]; simpl; [done |].
  rewrite IH. reflexivity.
Qed.

(** ** The command queue *)

Abbreviation emitsQ := (emits (@app chain)).

Lemma emitsQ_ret : emitsQ (ret tt) [].
Proof. apply emits_ret. intros s. apply app_nil_r. Qed.

Lemma emitsQ_enqueue (c : chain) : emitsQ (enqueue c) [c].
Proof. intros q. reflexivity. Qed.

Lemma emitsQ_bind (c k : Cy unit) (a b : list chain) :
  emitsQ c a -> emitsQ k b -> emitsQ (c ;;; k) (a ++ b)%list.
Proof.
  apply (emits_bind (@app chain) (@app chain)).
  intros s x y. symmetry. apply app_assoc.
Qed.

Lemma emitsQ_when (c : bool) (body : Cy unit) (a : list chain) :
  emitsQ body a -> emitsQ (when c body) (if c then a else []).
Proof. apply emits_when. intros s. apply app_nil_r. Qed.

Lemma emitsQ_forEach {A : Type} (f : A -> Cy unit) (g : A -> list chain) (l : list A) :
  (forall x, emitsQ (f x) (g x)) -> emitsQ (forEach l f) (flat_map g l).
Proof.
  intros Hf. rewrite <- gather_app.
  apply (emits_forEach (@app chain) (@app chain)); [| | exact Hf].
  - intros s. apply app_nil_r.
  - intros s x y. symmetry. apply app_assoc.
Qed.

Lemma emitsQ_commands (c : Cy unit) (w : list chain) :
  emitsQ c w -> commands c = Normal w.
Proof. intros H. unfold commands. by rewrite H. Qed.

Lemma selectGender_emits (gender : value) :
  emitsQ (selectGender gender) (genderCommands gender).
Proof.
  unfold selectGender, genderCommands.
  destruct (truthy gender); simpl; [apply emitsQ_enqueue | apply emitsQ_ret].
Qed.

Lemma uploadPicture_emits (file : value) :
  emitsQ (uploadPicture file) (pictureCommands file).
Proof.
  unfold uploadPicture, pictureCommands.
  destruct (truthy file); simpl; [apply emitsQ_enqueue | apply emitsQ_ret].
Qed.

Lemma selectLocation_emits (state city : value) :
  emitsQ (selectLocation state city) (locationCommands state city).
Proof.
  unfold selectLocation, locationCommands.
  destruct (truthy state); simpl; [| apply emitsQ_ret].
  apply (emitsQ_bind _ _ [_]); [apply emitsQ_enqueue |].
  destruct (truthy city); simpl; [apply emitsQ_enqueue | apply emitsQ_ret].
Qed.

Lemma arrayParam_ok (v : value) :
  isArrayParam v = true -> arrayParam v = Normal (arrayOf v).
Proof. by destruct v. Qed.

Lemma arrayParam_throws (v : value) :
  isArrayParam v = false -> arrayParam v = Throw TypeError.
Proof. by destruct v. Qed.

Lemma selectSubjects_emits (subjects : value) :
  isArrayParam subjects = true ->
  emitsQ (selectSubjects subjects) (flat_map subjectCycle (arrayOf subjects)).
Proof.
  intros H. unfold selectSubjects.
  eapply emits_liftC; [by apply arrayParam_ok |].
  apply emitsQ_forEach. intros subject.
  apply (emitsQ_bind _ _ [_] [_]); apply emitsQ_enqueue.
Qed.

Lemma selectHobbies_emits (hobbies : value) :
  isArrayParam hobbies = true ->
  emitsQ (selectHobbies hobbies) (flat_map hobbyClick (arrayOf hobbies)).
Proof.
  intros H. unfold selectHobbies.
  eapply emits_liftC; [by apply arrayParam_ok |].
  apply emitsQ_forEach. intros hobby. apply emitsQ_enqueue.
Qed.

Lemma fill_emits (formValues : option obj) :
  let fv := default defaultValues formValues in
  isArrayParam (get fv "subjects") = true ->
  isArrayParam (get fv "hobbies") = true ->
  emitsQ (fill formValues) (fillCommands fv).
Proof.
  intros fv Hs Hh. unfold fill, fillCommands. fold fv.
  apply emitsQ_bind.
  { apply emitsQ_forEach. intros field. unfold textCommands.
    apply (emitsQ_bind _ _ [_]); [apply emitsQ_enqueue |].
    apply emitsQ_when, emitsQ_enqueue. }
  apply emitsQ_bind.
  { unfold dobCommands. apply emitsQ_when, emitsQ_enqueue. }
  apply emitsQ_bind; [apply selectGender_emits |].
  apply emitsQ_bind; [by apply selectSubjects_emits |].
  apply emitsQ_bind; [by apply selectHobbies_emits |].
  apply emitsQ_bind; [apply uploadPicture_emits | apply selectLocation_emits].
Qed.

(** ** The local arrays of validateSubmission *)

Abbreviation emitsL := (emits extend).

Lemma extend_nil (st : locals) : extend st ([], []) = st.
Proof. destruct st. unfold extend. simpl. by rewrite !app_nil_r. Qed.

Lemma extend_extend (st : locals) (a b : contribution) :
  extend (extend st a) b = extend st (joinContributions a b).
Proof. unfold extend, joinContributions. simpl. by rewrite !app_assoc. Qed.

Lemma emitsL_ret : emitsL (ret tt) ([], []).
Proof. apply emits_ret, extend_nil. Qed.

Lemma emitsL_bind (c k : M locals unit) (a b : contribution) :
  emitsL c a -> emitsL k b -> emitsL (c ;;; k) (joinContributions a b).
Proof. apply emits_bind, extend_extend. Qed.

Lemma emitsL_forEach {A : Type} (f : A -> M locals unit) (g : A -> contribution)
    (l : list A) :
  (forall x, In x l -> emitsL (f x) (g x)) ->
  emitsL (forEach l f) (flatContributions g l).
Proof.
  induction l as [|x r IH]; intros Hf.
  - apply emitsL_ret.
  - change (flatContributions g (x :: r))
      with (joinContributions (g x) (flatContributions g r)).
    simpl. apply emitsL_bind; [apply Hf; by left |].
    apply IH. intros y Hy. apply Hf. by right.
Qed.

Lemma emitsL_pushPopulated (r : PopulatedField) : emitsL (pushPopulated r) ([r], []).
Proof.
  intros st. unfold pushPopulated, modify, extend. simpl. by rewrite app_nil_r.
Qed.

Lemma emitsL_pushMissing (l : string) : emitsL (pushMissing l) ([], [l]).
Proof.
  intros st. unfold pushMissing, modify, extend. simpl. by rewrite app_nil_r.
Qed.

Lemma emitsL_pushAll (lbl : string) (elems : list value) :
  emitsL (forEach elems (fun v => pushPopulated {| label := lbl; expValue := v |}))
         (map (fun v => {| label := lbl; expValue := v |}) elems, []).
Proof.
  induction elems as [|v r IH].
  - apply emitsL_ret.
  - simpl. apply (emitsL_bind _ _ ([_], []) (_, [])); [apply emitsL_pushPopulated | exact IH].
Qed.

(** A loop throws as soon as one of its steps does, whatever the steps
    before it added. *)
Lemma forEach_throws {A : Type} (f : A -> M locals unit) (l : list A) (x : A) :
  In x l ->
  (forall y, In y l -> (exists w, emitsL (f y) w) \/ (forall st, f y st = Throw TypeError)) ->
  (forall st, f x st = Throw TypeError) ->
  forall st, forEach l f st = Throw TypeError.
Proof.
  induction l as [|y r IH]; intros Hin Hall Hx st; [destruct Hin |].
  simpl. unfold bind at 1.
  destruct (Hall y (or_introl eq_refl)) as [[w Hw] | Hy].
  - rewrite Hw. destruct Hin as [-> | Hin].
    + specialize (Hw st). rewrite Hx in Hw. discriminate.
    + apply IH; [exact Hin | | exact Hx].
      intros z Hz. apply Hall. by right.
  - by rewrite Hy.
Qed.

Lemma listStep_emits (expectedValues : obj) (mapping : ListMapping) :
  (let v := get expectedValues (list_selector mapping) in
   negb (truthy v) || isArray v) = true ->
  emitsL (listStep expectedValues mapping) (listFields expectedValues mapping).
Proof.
  unfold listStep, listFields. simpl.
  destruct (get expectedValues (list_selector mapping)) as [| |b|n|s|l|];
    simpl; intros H; try discriminate; try apply emitsL_pushMissing.
  - destruct b; [discriminate | apply emitsL_pushMissing].
  - destruct (n =? 0)%Z; [apply emitsL_pushMissing | discriminate].
  - destruct (String.eqb s ""); [apply emitsL_pushMissing | discriminate].
  - apply emitsL_pushAll.
Qed.

Lemma listStep_throws (expectedValues : obj) (mapping : ListMapping) :
  (let v := get expectedValues (list_selector mapping) in
   negb (truthy v) || isArray v) = false ->
  forall st, listStep expectedValues mapping st = Throw TypeError.
Proof.
  unfold listStep. simpl.
  destruct (get expectedValues (list_selector mapping)) as [| |b|n|s|l|];
    simpl; intros H st; try discriminate; try reflexivity.
  - destruct b; [reflexivity | discriminate].
  - destruct (n =? 0)%Z; [discriminate | reflexivity].
  - destruct (String.eqb s ""); [discriminate | reflexivity].
Qed.

Lemma pictureStep_emits (expectedValues : obj) :
  (let p := get expectedValues "picture" in
   negb (truthy p) || isString p || isArray p) = true ->
  emitsL (pictureStep expectedValues) (pictureFields expectedValues).
Proof.
  unfold pictureStep, pictureFields. simpl.
  destruct (get expectedValues "picture") as [| |b|n|s|l|];
    simpl; intros H; try discriminate; try apply emitsL_pushMissing.
  - destruct b; [discriminate | apply emitsL_pushMissing].
  - destruct (n =? 0)%Z; [apply emitsL_pushMissing | discriminate].
  - destruct (String.eqb s ""); simpl;
      [apply emitsL_pushMissing | apply emitsL_pushPopulated].
  - apply emitsL_pushPopulated.
Qed.

Lemma pictureStep_throws (expectedValues : obj) :
  (let p := get expectedValues "picture" in
   negb (truthy p) || isString p || isArray p) = false ->
  forall st, pictureStep expectedValues st = Throw TypeError.
Proof.
  unfold pictureStep. simpl.
  destruct (get expectedValues "picture") as [| |b|n|s|l|];
    simpl; intros H st; try discriminate; try reflexivity.
  - destruct b; [reflexivity | discriminate].
  - destruct (n =? 0)%Z; [discriminate | reflexivity].
  - by rewrite orb_true_r in H.
Qed.

Lemma directLoop_emits (expectedValues : obj) :
  emitsL (forEach (sm_direct submissionMapping) (fun mapping =>
            if truthy (get expectedValues (direct_selector mapping)) then
              pushPopulated {| label := direct_label mapping;
                               expValue := get expectedValues (direct_selector mapping) |}
            else pushMissing (direct_label mapping)))
         (flatContributions (directFields expectedValues) (sm_direct submissionMapping)).
Proof.
  apply emitsL_forEach. intros m _. unfold directFields. simpl.
  destruct (truthy _); [apply emitsL_pushPopulated | apply emitsL_pushMissing].
Qed.

Lemma concatLoop_emits (expectedValues : obj) :
  emitsL (forEach (sm_concat submissionMapping) (fun mapping =>
            let expValue := concatExpValue expectedValues mapping in
            if truthy (VStr expValue) then
              pushPopulated {| label := concat_label mapping; expValue := VStr expValue |}
            else pushMissing (concat_label mapping)))
         (flatContributions (concatFields expectedValues) (sm_concat submissionMapping)).
Proof.
  apply emitsL_forEach. intros m _. unfold concatFields. cbv zeta.
  destruct (truthy _); [apply emitsL_pushPopulated | apply emitsL_pushMissing].
Qed.

Lemma validateSubmission_fields_eq (expectedValues : obj) :
  validateSubmission_fields expectedValues
  = (forEach (sm_direct submissionMapping) (fun mapping =>
       if truthy (get expectedValues (direct_selector mapping)) then
         pushPopulated {| label := direct_label mapping;
                          expValue := get expectedValues (direct_selector mapping) |}
       else pushMissing (direct_label mapping)) ;;;
     forEach (sm_concat submissionMapping) (fun mapping =>
       let expValue := concatExpValue expectedValues mapping in
       if truthy (VStr expValue) then
         pushPopulated {| label := concat_label mapping; expValue := VStr expValue |}
       else pushMissing (concat_label mapping)) ;;;
     forEach (sm_list submissionMapping) (listStep expectedValues) ;;;
     pictureStep expectedValues ;;;
     pushPopulated (dobField expectedValues)).
Proof. reflexivity. Qed.

(** On well-typed values [validateSubmission] builds its arrays without
    an exception, each part adding its fields in source order. *)
Lemma fieldsOf_wellTyped (expectedValues : obj) :
  wellTyped expectedValues = true ->
  fieldsOf expectedValues = Normal (extend emptyLocals (allFields expectedValues)).
Proof.
  unfold wellTyped. rewrite andb_true_iff, forallb_forall. intros [Hl Hp].
  unfold fieldsOf. rewrite validateSubmission_fields_eq.
  assert (emitsL (forEach (sm_direct submissionMapping) (fun mapping =>
       if truthy (get expectedValues (direct_selector mapping)) then
         pushPopulated {| label := direct_label mapping;
                          expValue := get expectedValues (direct_selector mapping) |}
       else pushMissing (direct_label mapping)) ;;;
     forEach (sm_concat submissionMapping) (fun mapping =>
       let expValue := concatExpValue expectedValues mapping in
       if truthy (VStr expValue) then
         pushPopulated {| label := concat_label mapping; expValue := VStr expValue |}
       else pushMissing (concat_label mapping)) ;;;
     forEach (sm_list submissionMapping) (listStep expectedValues) ;;;
     pictureStep expectedValues ;;;
     pushPopulated (dobField expectedValues)) (allFields expectedValues)) as H.
  { unfold allFields.
    apply emitsL_bind; [apply directLoop_emits |].
    apply emitsL_bind; [apply concatLoop_emits |].
    apply emitsL_bind.
    { apply emitsL_forEach. intros m Hm. apply listStep_emits, Hl, Hm. }
    apply emitsL_bind; [by apply pictureStep_emits | apply emitsL_pushPopulated]. }
  by rewrite H.
Qed.

(** On any other values the first call of a missing method ends it. *)
Lemma fieldsOf_illTyped (expectedValues : obj) :
  wellTyped expectedValues = false ->
  fieldsOf expectedValues = Throw TypeError.
Proof.
  unfold wellTyped. intros H.
  unfold fieldsOf. rewrite validateSubmission_fields_eq.
  unfold bind at 1. rewrite directLoop_emits.
  unfold bind at 1. rewrite concatLoop_emits.
  unfold bind at 1.
  destruct (forallb _ (sm_list submissionMapping)) eqn:Hl.
  - simpl in H. rewrite forallb_forall in Hl.
    rewrite (emitsL_forEach _ (listFields expectedValues)).
    + unfold bind at 1. by rewrite pictureStep_throws.
    + intros m Hm. apply listStep_emits, Hl, Hm.
  - assert (exists m, In m (sm_list submissionMapping) /\
              (let v := get expectedValues (list_selector m) in
               negb (truthy v) || isArray v) = false) as (m & Hm & Hv).
    { clear H. induction (sm_list submissionMapping) as [|m r IH]; [discriminate |].
      simpl in Hl. apply andb_false_iff in Hl as [Hl | Hl].
      - exists m. split; [by left | exact Hl].
      - destruct (IH Hl) as (m' & Hm' & Hv'). exists m'. split; [by right | exact Hv']. }
    rewrite (forEach_throws (listStep expectedValues) _ m); [done | exact Hm | |].
    + intros y _.
      destruct (negb (truthy (get expectedValues (list_selector y)))
                || isArray (get expectedValues (list_selector y))) eqn:Hy.
      * left. eexists. by apply listStep_emits.
      * right. by apply listStep_throws.
    + by apply listStep_throws.
Qed.

(** ** Where a populated record or a missing label comes from *)

Lemma directFields_populated (ev : obj) (l : list DirectMapping) (r : PopulatedField) :
  In r (flatContributions (directFields ev) l).1 ->
  exists m, In m l /\ label r = direct_label m
            /\ expValue r = get ev (direct_selector m)
            /\ truthy (get ev (direct_selector m)) = true.
Proof.
  simpl. rewrite in_flat_map. intros (m & Hm & Hr). exists m.
  unfold directFields in Hr. simpl in Hr.
  destruct (truthy (get ev (direct_selector m))) eqn:Ht; simpl in Hr; [| done].
  destruct Hr as [<- | []]. by simpl.
Qed.

Lemma directFields_missing (ev : obj) (l : list DirectMapping) (x : string) :
  In x (flatContributions (directFields ev) l).2 ->
  exists m, In m l /\ x = direct_label m.
Proof.
  simpl. rewrite in_flat_map. intros (m & Hm & Hx). exists m.
  unfold directFields in Hx. simpl in Hx.
  destruct (truthy (get ev (direct_selector m))); simpl in Hx; [done |].
  destruct Hx as [<- | []]. done.
Qed.

Lemma concatFields_populated (ev : obj) (l : list ConcatMapping) (r : PopulatedField) :
  In r (flatContributions (concatFields ev) l).1 ->
  exists m, In m l /\ label r = concat_label m
            /\ expValue r = VStr (concatExpValue ev m)
            /\ concatExpValue ev m <> "".
Proof.
  simpl. rewrite in_flat_map. intros (m & Hm & Hr). exists m.
  unfold concatFields in Hr. simpl in Hr.
  destruct (String.eqb (concatExpValue ev m) "") eqn:He; simpl in Hr; [done |].
  destruct Hr as [<- | []]. simpl. repeat split; try done.
  intros E. rewrite E in He. discriminate.
Qed.

Lemma concatFields_missing (ev : obj) (l : list ConcatMapping) (x : string) :
  In x (flatContributions (concatFields ev) l).2 ->
  exists m, In m l /\ x = concat_label m.
Proof.
  simpl. rewrite in_flat_map. intros (m & Hm & Hx). exists m.
  unfold concatFields in Hx. simpl in Hx.
  destruct (String.eqb (concatExpValue ev m) ""); simpl in Hx; [| done].
  destruct Hx as [<- | []]. done.
Qed.

Lemma listFields_populated (ev : obj) (l : list ListMapping) (r : PopulatedField) :
  In r (flatContributions (listFields ev) l).1 ->
  exists m elems, In m l /\ label r = list_label m
                  /\ get ev (list_selector m) = VArr elems
                  /\ In (expValue r) elems.
Proof.
  simpl. rewrite in_flat_map. intros (m & Hm & Hr). exists m.
  unfold listFields in Hr.
  destruct (get ev (list_selector m)) as [| |b|n|s|elems|]; simpl in Hr; try done.
  exists elems. apply in_map_iff in Hr as (v & <- & Hv). by simpl.
Qed.

Lemma listFields_missing (ev : obj) (l : list ListMapping) (x : string) :
  In x (flatContributions (listFields ev) l).2 ->
  exists m, In m l /\ x = list_label m /\ isArray (get ev (list_selector m)) = false.
Proof.
  simpl. rewrite in_flat_map. intros (m & Hm & Hx). exists m.
  unfold listFields in Hx.
  destruct (get ev (list_selector m)) as [| |b|n|s|elems|]; simpl in Hx;
    try done; destruct Hx as [<- | []]; done.
Qed.

Lemma pictureFields_populated (ev : obj) (r : PopulatedField) :
  In r (pictureFields ev).1 ->
  label r = sm_picture submissionMapping
  /\ truthy (get ev "picture") = true
  /\ pictureName (get ev "picture") = Normal (expValue r).
Proof.
  unfold pictureFields. simpl.
  destruct (truthy (get ev "picture")); [| done].
  destruct (pictureName (get ev "picture")) as [name|]; [| done].
  simpl. intros [<- | []]. done.
Qed.

Lemma pictureFields_missing (ev : obj) (x : string) :
  In x (pictureFields ev).2 ->
  x = sm_picture submissionMapping /\ truthy (get ev "picture") = false.
Proof.
  unfold pictureFields. simpl.
  destruct (truthy (get ev "picture")).
  - destruct (pictureName (get ev "picture")); done.
  - simpl. intros [<- | []]. done.
Qed.

(** The populated records, part by part. *)
Lemma allFields_populated (ev : obj) (r : PopulatedField) :
  In r (allFields ev).1 <->
  In r (flatContributions (directFields ev) (sm_direct submissionMapping)).1
  \/ In r (flatContributions (concatFields ev) (sm_concat submissionMapping)).1
  \/ In r (flatContributions (listFields ev) (sm_list submissionMapping)).1
  \/ In r (pictureFields ev).1
  \/ r = dobField ev.
Proof.
  unfold allFields, joinContributions. cbn [fst snd].
  rewrite !in_app_iff. simpl. intuition.
Qed.

(** The missing labels, part by part; the date of birth adds none. *)
Lemma allFields_missing (ev : obj) (x : string) :
  In x (allFields ev).2 <->
  In x (flatContributions (directFields ev) (sm_direct submissionMapping)).2
  \/ In x (flatContributions (concatFields ev) (sm_concat submissionMapping)).2
  \/ In x (flatContributions (listFields ev) (sm_list submissionMapping)).2
  \/ In x (pictureFields ev).2.
Proof.
  unfold allFields, joinContributions. cbn [fst snd].
  rewrite !in_app_iff. simpl. intuition.
Qed.

Lemma extend_emptyLocals (w : contribution) :
  populatedFields (extend emptyLocals w) = w.1
  /\ missingFields (extend emptyLocals w) = w.2.
Proof. done. Qed.

(** ** Distinct labels *)

Lemma existsb_eqb_In (x : string) (l : list string) :
  existsb (String.eqb x) l = true <-> In x l.
Proof.
  rewrite existsb_exists. split.
  - intros (y & Hy & E). apply String.eqb_eq in E. by subst.
  - intros H. exists x. split; [done | apply String.eqb_refl].
Qed.

Lemma distinct_cons (x : string) (l : list string) :
  distinct (x :: l) = true <-> ~ In x l /\ distinct l = true.
Proof.
  simpl. rewrite andb_true_iff, negb_true_iff, <- existsb_eqb_In.
  destruct (existsb (String.eqb x) l); intuition congruence.
Qed.

Lemma distinct_app (a b : list string) :
  distinct (a ++ b) = true <->
  distinct a = true /\ distinct b = true /\ (forall x, In x a -> ~ In x b).
Proof.
  induction a as [|y a IH].
  - simpl. intuition.
  - change ((y :: a) ++ b)%list with (y :: (a ++ b))%list.
    rewrite !distinct_cons, IH, in_app_iff. split.
    + intros (Hn & Ha & Hb & Hd). repeat split; try tauto.
      intros x [<- | Hx]; [tauto | by apply Hd].
    + intros ((Hn & Ha) & Hb & Hd). repeat split; try tauto.
      * intros [H | H]; [tauto | apply (Hd y); [by left | done]].
      * intros x Hx. apply Hd. by right.
Qed.

Lemma distinct_map_inj {A : Type} (f : A -> string) (l : list A) (x y : A) :
  distinct (map f l) = true -> In x l -> In y l -> f x = f y -> x = y.
Proof.
  induction l as [|z l IH]; [done |].
  change (map f (z :: l)) with (f z :: map f l).
  rewrite distinct_cons. intros (Hn & Hd) [-> | Hx] [-> | Hy] E; try done.
  - exfalso. apply Hn. rewrite E. by apply in_map.
  - exfalso. apply Hn. rewrite <- E. by apply in_map.
  - by apply IH.
Qed.

(** With distinct labels the five categories are pairwise disjoint and a
    label names one mapping. *)
Lemma distinct_labels :
  distinct labelsOf = true ->
  let D := map direct_label (sm_direct submissionMapping) in
  let C := map concat_label (sm_concat submissionMapping) in
  let L := map list_label (sm_list submissionMapping) in
  let p := sm_picture submissionMapping in
  let d := sm_dob submissionMapping in
  (distinct D = true /\ distinct C = true /\ distinct L = true)
  /\ (forall x, In x D -> ~ In x C /\ ~ In x L /\ x <> p /\ x <> d)
  /\ (forall x, In x C -> ~ In x L /\ x <> p /\ x <> d)
  /\ (forall x, In x L -> x <> p /\ x <> d)
  /\ p <> d.
Proof.
  intros H D C L p d. unfold labelsOf in H.
  apply distinct_app in H as (HD & H & HDx).
  apply distinct_app in H as (HC & H & HCx).
  apply distinct_app in H as (HL & H & HLx).
  apply distinct_cons in H as (Hp & _).
  split; [done |]. split; [| split; [| split]].
  - intros x Hx. specialize (HDx x Hx). rewrite !in_app_iff in HDx. simpl in HDx.
    repeat split; [tauto | tauto | intros -> | intros ->]; tauto.
  - intros x Hx. specialize (HCx x Hx). rewrite !in_app_iff in HCx. simpl in HCx.
    repeat split; [tauto | intros -> | intros ->]; tauto.
  - intros x Hx. specialize (HLx x Hx). simpl in HLx.
    split; intros ->; tauto.
  - intros E. apply Hp. left. by symmetry.
Qed.

(** ** The concatenation loop *)

Lemma string_app_nil_r (s : string) : s +:+ "" = s.
Proof. induction s as [|a s IH]; simpl; [done | by f_equal]. Qed.

Lemma string_app_assoc (a b c : string) : (a +:+ b) +:+ c = a +:+ (b +:+ c).
Proof. induction a as [|x a IH]; simpl; [done | by f_equal]. Qed.

Lemma string_length_zero (s : string) : (String.length s =? 0)%nat = String.eqb s "".
Proof. by destruct s. Qed.

Lemma string_app_nonempty (a b : string) : b <> "" -> a +:+ b <> "".
Proof. destruct a; simpl; [done | discriminate]. Qed.

Lemma decimal_nonempty (n : Z) : NilZero.string_of_int (Z.to_int n) <> "".
Proof.
  unfold NilZero.string_of_int.
  destruct (Z.to_int n) as [d | d]; [| discriminate].
  unfold NilZero.string_of_uint. destruct d; simpl; discriminate.
Qed.

(** A truthy value that is no array renders as a non-empty string. *)
Lemma toString_truthy (v : value) :
  truthy v = true -> isArray v = false -> toString v <> "".
Proof.
  destruct v as [| |b|n|s|l|]; simpl; try discriminate.
  - destruct b; discriminate.
  - intros _ _. apply decimal_nonempty.
  - intros H _ E. by rewrite E in H.
Qed.

Lemma concatPart_not_array (ev : obj) (m : ConcatMapping) (sel : string) :
  isArray (concatPart ev m sel) = false.
Proof. unfold concatPart. by destruct (get ev sel). Qed.

Lemma concatStep_part (ev : obj) (m : ConcatMapping) (acc sel : string) :
  concatStep ev m acc sel
  = if truthy (concatPart ev m sel)
    then acc +:+ (if (String.length acc =? 0)%nat
                  then toString (concatPart ev m sel)
                  else delimeter m +:+ toString (concatPart ev m sel))
    else acc.
Proof.
  unfold concatStep, concatPart.
  destruct (get ev sel) as [| |b|n|s|l|]; cbv zeta;
    match goal with |- context [truthy ?v] => destruct (truthy v) end;
    try reflexivity; unfold addStr; by destruct (String.length acc =? 0)%nat.
Qed.

Lemma concatExpValue_appendParts (ev : obj) (m : ConcatMapping)
    (sels : list string) (acc : string) :
  fold_left (concatStep ev m) sels acc
  = appendParts (delimeter m) acc
      (map toString (List.filter truthy (map (concatPart ev m) sels))).
Proof.
  revert acc. induction sels as [|sel sels IH]; intros acc; [done |].
  simpl. rewrite IH, concatStep_part.
  by destruct (truthy (concatPart ev m sel)).
Qed.

Lemma appendParts_cons (delim acc p : string) (parts : list string) :
  appendParts delim acc (p :: parts)
  = appendParts delim
      (acc +:+ (if (String.length acc =? 0)%nat then p else delim +:+ p)) parts.
Proof. reflexivity. Qed.

Lemma appendParts_nonempty (delim acc : string) (parts : list string) :
  acc <> "" ->
  appendParts delim acc parts
  = acc +:+ fold_right String.append "" (map (fun p => delim +:+ p) parts).
Proof.
  revert acc. induction parts as [|p parts IH]; intros acc Hacc.
  - simpl. by rewrite string_app_nil_r.
  - rewrite appendParts_cons, string_length_zero.
    destruct (String.eqb_spec acc ""); [done |].
    rewrite IH; [simpl; by rewrite !string_app_assoc |].
    destruct acc; [done | discriminate].
Qed.

Lemma joinWith_cons {A : Type} (f : A -> string) (sep : string) (x : A) (r : list A) :
  joinWith f sep (x :: r)
  = f x +:+ fold_right String.append "" (map (fun y => sep +:+ f y) r).
Proof.
  revert x. induction r as [|y r IH]; intros x.
  - simpl. by rewrite string_app_nil_r.
  - change (joinWith f sep (x :: y :: r)) with (f x +:+ sep +:+ joinWith f sep (y :: r)).
    rewrite IH. simpl. by rewrite !string_app_assoc.
Qed.

(** The loop of the source builds the string the specification words. *)
Lemma concatExpValue_concatSpec (ev : obj) (m : ConcatMapping) :
  concatExpValue ev m = concatSpec ev m.
Proof.
  unfold concatExpValue, concatSpec. rewrite concatExpValue_appendParts.
  remember (map (concatPart ev m) (concat_selectors m)) as parts eqn:Hparts.
  assert (Forall (fun v => isArray v = false) parts) as Hna.
  { subst parts. apply Forall_forall. intros v Hv.
    apply list_elem_of_In, in_map_iff in Hv as (sel & <- & _).
    apply concatPart_not_array. }
  clear Hparts. induction Hna as [|v parts Hv Hna IH]; [done |].
  simpl. destruct (truthy v) eqn:Ht; [| exact IH].
  change (map toString (v :: List.filter truthy parts))
    with (toString v :: map toString (List.filter truthy parts)).
  rewrite appendParts_cons.
  change ("" +:+ (if (String.length "" =? 0)%nat then toString v
                  else delimeter m +:+ toString v)) with (toString v).
  rewrite appendParts_nonempty by (by apply toString_truthy).
  rewrite joinWith_cons. by rewrite map_map.
Qed.

Lemma falsyOrEmpty_concatPart (ev : obj) (m : ConcatMapping) (sel : string) :
  falsyOrEmpty (get ev sel) = true -> truthy (concatPart ev m sel) = false.
Proof.
  unfold concatPart.
  destruct (get ev sel) as [| |b|n|s|l|]; simpl; try done.
  - by destruct b.
  - by destruct (n =? 0)%Z.
  - by destruct (String.eqb s "").
  - by destruct l.
Qed.

(** A mapping all of whose selectors are falsy or empty accumulates the
    empty string. *)
Lemma concatExpValue_all_empty (ev : obj) (m : ConcatMapping) :
  (forall sel, In sel (concat_selectors m) -> falsyOrEmpty (get ev sel) = true) ->
  concatExpValue ev m = "".
Proof.
  intros H. rewrite concatExpValue_concatSpec. unfold concatSpec.
  induction (concat_selectors m) as [|sel sels IH]; [done |].
  simpl. rewrite falsyOrEmpty_concatPart by (apply H; by left).
  apply IH. intros s Hs. apply H. by right.
Qed.

(** ** Claims about validateSubmission *)

(** C2. For every concatenated mapping the expected string is the
    selectors' values in order, a list value joined with the delimiter
    first, the non-empty parts separated by the delimiter with no leading
    delimiter; that string is the value of the populated record; and for
    the values a = X, b = [Y, Z] with selectors a, b and a space as
    delimiter the string is X Y Z. *)
Theorem concat_policy :
  (forall (ev : obj) (m : ConcatMapping), concatExpValue ev m = concatSpec ev m)
  /\ (forall (ev : obj) (m : ConcatMapping),
        wellTyped ev = true ->
        In m (sm_concat submissionMapping) ->
        concatSpec ev m <> "" ->
        exists st, fieldsOf ev = Normal st
                   /\ In {| label := concat_label m; expValue := VStr (concatSpec ev m) |}
                         (populatedFields st))
  /\ (forall lbl, concatExpValue policyValues (policyMapping lbl) = "X Y Z").
Proof.
  split; [exact concatExpValue_concatSpec |]. split; [| reflexivity].
  intros ev m Hwt Hm Hne. eexists. split; [by apply fieldsOf_wellTyped |].
  apply allFields_populated. right. left. simpl.
  apply in_flat_map. exists m. split; [done |].
  unfold concatFields. rewrite concatExpValue_concatSpec. simpl.
  destruct (String.eqb_spec (concatSpec ev m) ""); [done | by left].
Qed.

(** C3. A concatenated mapping all of whose selectors are falsy or empty
    has its label among the missing fields, and no populated record
    carries that label, so none carries it with an empty string. *)
Theorem concat_all_empty_is_missing (ev : obj) (m : ConcatMapping) :
  wellTyped ev = true ->
  distinct labelsOf = true ->
  In m (sm_concat submissionMapping) ->
  (forall sel, In sel (concat_selectors m) -> falsyOrEmpty (get ev sel) = true) ->
  exists st, fieldsOf ev = Normal st
             /\ In (concat_label m) (missingFields st)
             /\ (forall r, In r (populatedFields st) -> label r <> concat_label m).
Proof.
  intros Hwt Hd Hm Hall.
  pose proof (concatExpValue_all_empty ev m Hall) as He.
  destruct (distinct_labels Hd) as ((_ & HC & _) & HD & HCx & HL & Hpd).
  assert (In (concat_label m) (map concat_label (sm_concat submissionMapping)))
    as Hlab by (by apply in_map).
  eexists. split; [by apply fieldsOf_wellTyped |]. split.
  - apply allFields_missing. right. left. simpl.
    apply in_flat_map. exists m. split; [done |].
    unfold concatFields. rewrite He. by left.
  - intros r Hr E. apply allFields_populated in Hr as [Hr | [Hr | [Hr | [Hr | ->]]]].
    + apply directFields_populated in Hr as (m0 & Hm0 & Hl0 & _).
      destruct (HD (direct_label m0)) as (Hn & _); [by apply in_map |].
      apply Hn. by rewrite <- Hl0, E.
    + apply concatFields_populated in Hr as (m' & Hm' & Hl' & _ & Hne).
      assert (m' = m) as -> by (apply (distinct_map_inj concat_label _ _ _ HC Hm' Hm); congruence).
      done.
    + apply listFields_populated in Hr as (m0 & elems & Hm0 & Hl0 & _).
      destruct (HCx _ Hlab) as (Hn & _). apply Hn. rewrite <- E, Hl0. by apply in_map.
    + apply pictureFields_populated in Hr as (Hl0 & _).
      destruct (HCx _ Hlab) as (_ & Hn & _). congruence.
    + destruct (HCx _ Hlab) as (_ & _ & Hn). apply Hn. by rewrite <- E.
Qed.

(** C4. On every well-typed input the date of birth has exactly one
    populated record, the last one, and is never missing; its value is
    the formatted [expectedValues.dob] when the key is present and the
    formatted current date when it is absent. *)
Theorem dob_always_populated (ev : obj) :
  wellTyped ev = true ->
  distinct labelsOf = true ->
  exists st before value,
    fieldsOf ev = Normal st
    /\ populatedFields st
       = (before ++ [ {| label := sm_dob submissionMapping; expValue := VStr value |} ])%list
    /\ (forall r, In r before -> label r <> sm_dob submissionMapping)
    /\ ~ In (sm_dob submissionMapping) (missingFields st)
    /\ (ev !! "dob" = None -> value = format_DD_MMMM_YYYY (Some now))
    /\ (forall v, ev !! "dob" = Some v -> value = format_DD_MMMM_YYYY (dayjs v)).
Proof.
  intros Hwt Hd.
  destruct (distinct_labels Hd) as (_ & HD & HC & HL & Hpd).
  set (w := joinContributions
              (flatContributions (directFields ev) (sm_direct submissionMapping))
              (joinContributions
                 (flatContributions (concatFields ev) (sm_concat submissionMapping))
                 (joinContributions
                    (flatContributions (listFields ev) (sm_list submissionMapping))
                    (pictureFields ev)))).
  exists (extend emptyLocals (allFields ev)), w.1,
    (format_DD_MMMM_YYYY (dayjs (get ev "dob"))).
  split; [by apply fieldsOf_wellTyped |]. split.
  { unfold allFields, w, joinContributions, dobField. cbn [extend emptyLocals fst snd
      populatedFields]. by rewrite <- !app_assoc. }
  split.
  { intros r Hr E. unfold w, joinContributions in Hr. cbn [fst snd] in Hr.
    rewrite !in_app_iff in Hr. destruct Hr as [Hr | [Hr | [Hr | Hr]]].
    - apply directFields_populated in Hr as (m & Hm & Hl & _).
      destruct (HD (direct_label m)) as (_ & _ & _ & Hn); [by apply in_map |].
      congruence.
    - apply concatFields_populated in Hr as (m & Hm & Hl & _).
      destruct (HC (concat_label m)) as (_ & _ & Hn); [by apply in_map |].
      congruence.
    - apply listFields_populated in Hr as (m & elems & Hm & Hl & _).
      destruct (HL (list_label m)) as (_ & Hn); [by apply in_map |].
      congruence.
    - apply pictureFields_populated in Hr as (Hl & _). congruence. }
  split.
  { intros Hin. apply allFields_missing in Hin as [Hr | [Hr | [Hr | Hr]]].
    - apply directFields_missing in Hr as (m & Hm & Hl).
      destruct (HD (direct_label m)) as (_ & _ & _ & Hn); [by apply in_map |].
      congruence.
    - apply concatFields_missing in Hr as (m & Hm & Hl).
      destruct (HC (concat_label m)) as (_ & _ & Hn); [by apply in_map |].
      congruence.
    - apply listFields_missing in Hr as (m & Hm & Hl & _).
      destruct (HL (list_label m)) as (_ & Hn); [by apply in_map |].
      congruence.
    - apply pictureFields_missing in Hr as (Hl & _). congruence. }
  split.
  - intros E. unfold get. by rewrite E.
  - intros v E. unfold get. by rewrite E.
Qed.

(** ** The file name of a path *)

Lemma lastIndexOf_noSlash (t : string) : noSlash t = true -> lastIndexOf "/" t = (-1)%Z.
Proof.
  induction t as [|a t IH]; [done |].
  simpl. intros [Ha Ht]%andb_true_iff. rewrite (IH Ht). simpl.
  apply negb_true_iff in Ha. by rewrite Ha.
Qed.

Lemma lastIndexOf_last (p t : string) :
  noSlash t = true ->
  lastIndexOf "/" (p +:+ String "/" t) = Z.of_nat (String.length p).
Proof.
  intros Ht. induction p as [|a p IH].
  - simpl. by rewrite (lastIndexOf_noSlash t Ht).
  - change (String a p +:+ String "/" t) with (String a (p +:+ String "/" t)).
    cbn [lastIndexOf String.length]. rewrite IH.
    destruct (Z.leb_spec 0 (Z.of_nat (String.length p))); lia.
Qed.

Lemma dropString_app (p t : string) : dropString (String.length p) (p +:+ t) = t.
Proof. induction p as [|a p IH]; simpl; [by destruct t | exact IH]. Qed.

Lemma string_length_app (p t : string) :
  String.length (p +:+ t) = (String.length p + String.length t)%nat.
Proof. induction p as [|a p IH]; simpl; [done | by rewrite IH]. Qed.

Lemma slice_all (s : string) : slice 0 s = s.
Proof.
  unfold slice. simpl.
  replace (Z.to_nat (Z.min 0 (Z.of_nat (String.length s)))) with 0%nat by lia.
  by destruct s.
Qed.

(** The source expression takes what follows the last slash. *)
Lemma slice_after_last_slash (p t : string) :
  noSlash t = true ->
  slice (lastIndexOf "/" (p +:+ String "/" t) + 1) (p +:+ String "/" t) = t.
Proof.
  intros Ht. rewrite (lastIndexOf_last p t Ht). unfold slice.
  rewrite string_length_app. cbn [String.length].
  destruct (Z.ltb_spec (Z.of_nat (String.length p) + 1) 0); [lia |].
  replace (Z.to_nat (Z.min _ _)) with (String.length (p +:+ "/")).
  - replace (p +:+ String "/" t) with ((p +:+ "/") +:+ t)
      by (by rewrite string_app_assoc).
    apply dropString_app.
  - rewrite string_length_app. simpl. lia.
Qed.

(** Without a slash the source expression returns the whole string. *)
Lemma slice_no_slash (s : string) :
  noSlash s = true -> slice (lastIndexOf "/" s + 1) s = s.
Proof. intros Hs. rewrite (lastIndexOf_noSlash s Hs). apply slice_all. Qed.

Lemma split_last_slash (s : string) :
  noSlash s = true \/ exists p t, s = p +:+ String "/" t /\ noSlash t = true.
Proof.
  induction s as [|a s IH]; [by left |].
  destruct IH as [Hs | (p & t & -> & Ht)].
  - destruct (Ascii.eqb_spec a "/") as [-> | Hne].
    + right. exists "", s. by split.
    + left. simpl. rewrite Hs. apply Ascii.eqb_neq in Hne. by rewrite Hne.
  - right. exists (String a p), t. by split.
Qed.

Lemma endsWithSlash_noSlash (t : string) : noSlash t = true -> endsWithSlash t = false.
Proof.
  induction t as [|a t IH]; [done |].
  simpl. intros [Ha Ht]%andb_true_iff. destruct t; [by apply negb_true_iff | by apply IH].
Qed.

Lemma endsWithSlash_app (p t : string) :
  t <> "" -> endsWithSlash (p +:+ t) = endsWithSlash t.
Proof.
  intros Ht. induction p as [|a p IH]; [done |].
  change (String a p +:+ t) with (String a (p +:+ t)).
  cbn [endsWithSlash]. destruct (p +:+ t) eqn:E; [| exact IH].
  destruct p; [by simpl in E | discriminate].
Qed.

(** The file name is empty exactly for the empty path and for a path
    that ends with a slash. *)
Lemma slice_empty_iff (s : string) :
  slice (lastIndexOf "/" s + 1) s = "" <-> s = "" \/ endsWithSlash s = true.
Proof.
  destruct (split_last_slash s) as [Hs | (p & t & -> & Ht)].
  - rewrite (slice_no_slash s Hs), (endsWithSlash_noSlash s Hs). intuition discriminate.
  - rewrite (slice_after_last_slash p t Ht), (endsWithSlash_app p (String "/" t)) by done.
    destruct t as [|b t].
    + simpl. split; [by right | done].
    + assert (endsWithSlash (String "/" (String b t)) = false) as ->
        by exact (endsWithSlash_noSlash _ Ht).
      split; [done |]. intros [E | E]; [| done].
      destruct p; discriminate.
Qed.

Lemma populated_with_picture_label (ev : obj) (r : PopulatedField) :
  distinct labelsOf = true ->
  In r (allFields ev).1 ->
  label r = sm_picture submissionMapping ->
  In r (pictureFields ev).1.
Proof.
  intros Hd Hr E.
  destruct (distinct_labels Hd) as (_ & HD & HC & HL & Hpd).
  apply allFields_populated in Hr as [Hr | [Hr | [Hr | [Hr | ->]]]]; [| | | done |].
  - apply directFields_populated in Hr as (m & Hm & Hl & _).
    destruct (HD (direct_label m)) as (_ & _ & Hn & _); [by apply in_map |]. congruence.
  - apply concatFields_populated in Hr as (m & Hm & Hl & _).
    destruct (HC (concat_label m)) as (_ & Hn & _); [by apply in_map |]. congruence.
  - apply listFields_populated in Hr as (m & elems & Hm & Hl & _).
    destruct (HL (list_label m)) as (Hn & _); [by apply in_map |]. congruence.
  - simpl in E. congruence.
Qed.

Lemma missing_with_picture_label (ev : obj) :
  distinct labelsOf = true ->
  In (sm_picture submissionMapping) (allFields ev).2 ->
  In (sm_picture submissionMapping) (pictureFields ev).2.
Proof.
  intros Hd Hr.
  destruct (distinct_labels Hd) as (_ & HD & HC & HL & Hpd).
  apply allFields_missing in Hr as [Hr | [Hr | [Hr | Hr]]]; [| | | done].
  - apply directFields_missing in Hr as (m & Hm & Hl).
    destruct (HD (direct_label m)) as (_ & _ & Hn & _); [by apply in_map |]. congruence.
  - apply concatFields_missing in Hr as (m & Hm & Hl).
    destruct (HC (concat_label m)) as (_ & Hn & _); [by apply in_map |]. congruence.
  - apply listFields_missing in Hr as (m & Hm & Hl & _).
    destruct (HL (list_label m)) as (Hn & _); [by apply in_map |]. congruence.
Qed.

Lemma pictureFields_string (ev : obj) (s : string) :
  get ev "picture" = VStr s -> s <> "" ->
  pictureFields ev
  = ([ {| label := sm_picture submissionMapping;
          expValue := VStr (slice (lastIndexOf "/" s + 1) s) |} ], []).
Proof.
  intros E Hs. unfold pictureFields. rewrite E. simpl.
  by destruct (String.eqb_spec s "").
Qed.

Lemma pictureFields_falsy (ev : obj) :
  truthy (get ev "picture") = false ->
  pictureFields ev = ([], [sm_picture submissionMapping]).
Proof. intros E. unfold pictureFields. by rewrite E. Qed.

(** C5. A truthy picture path gives one populated record for the picture
    label, whose value is what follows the last slash of the path, and
    the label is not missing; a falsy picture gives the label as missing
    and no populated record; the path /fixtures/images/photo.png gives
    photo.png. *)
Theorem picture_basename (ev : obj) :
  wellTyped ev = true ->
  distinct labelsOf = true ->
  exists st,
    fieldsOf ev = Normal st
    /\ (forall s, get ev "picture" = VStr s -> s <> "" ->
          let r := {| label := sm_picture submissionMapping;
                      expValue := VStr (slice (lastIndexOf "/" s + 1) s) |} in
          In r (populatedFields st)
          /\ (forall r', In r' (populatedFields st) ->
                         label r' = sm_picture submissionMapping -> r' = r)
          /\ ~ In (sm_picture submissionMapping) (missingFields st))
    /\ (truthy (get ev "picture") = false ->
          In (sm_picture submissionMapping) (missingFields st)
          /\ (forall r, In r (populatedFields st) ->
                        label r <> sm_picture submissionMapping))
    /\ (forall p t, noSlash t = true ->
          slice (lastIndexOf "/" (p +:+ String "/" t) + 1) (p +:+ String "/" t) = t)
    /\ slice (lastIndexOf "/" "/fixtures/images/photo.png" + 1)
             "/fixtures/images/photo.png" = "photo.png".
Proof.
  intros Hwt Hd. eexists. split; [by apply fieldsOf_wellTyped |].
  split; [| split; [| split; [exact slice_after_last_slash | reflexivity]]].
  - intros s E Hs r. pose proof (pictureFields_string ev s E Hs) as Hp.
    split; [| split].
    + apply allFields_populated. do 3 right. left. rewrite Hp. by left.
    + intros r' Hr' El.
      pose proof (populated_with_picture_label ev r' Hd Hr' El) as Hin.
      rewrite Hp in Hin. by destruct Hin as [<- | []].
    + intros Hin. apply (missing_with_picture_label ev Hd) in Hin.
      by rewrite Hp in Hin.
  - intros Hf. pose proof (pictureFields_falsy ev Hf) as Hp. split.
    + apply allFields_missing. do 3 right. rewrite Hp. by left.
    + intros r Hr El.
      pose proof (populated_with_picture_label ev r Hd Hr El) as Hin.
      by rewrite Hp in Hin.
Qed.

(** C10, amended. A non-empty picture string never makes the extraction
    fail: a populated record is produced, whose value is the whole string
    when it holds no slash, and is empty exactly when the string ends
    with a slash. *)
Theorem picture_name_total (ev : obj) (s : string) :
  wellTyped ev = true ->
  get ev "picture" = VStr s ->
  s <> "" ->
  exists st b,
    fieldsOf ev = Normal st
    /\ pictureName (get ev "picture") = Normal (VStr b)
    /\ In {| label := sm_picture submissionMapping; expValue := VStr b |}
          (populatedFields st)
    /\ (noSlash s = true -> b = s)
    /\ (b = "" <-> endsWithSlash s = true).
Proof.
  intros Hwt E Hs.
  exists (extend emptyLocals (allFields ev)), (slice (lastIndexOf "/" s + 1) s).
  split; [by apply fieldsOf_wellTyped |].
  split; [by rewrite E |]. split; [| split].
  - apply allFields_populated. do 3 right. left.
    rewrite (pictureFields_string ev s E Hs). by left.
  - apply slice_no_slash.
  - rewrite slice_empty_iff. intuition.
Qed.

(** ** Dependence on the input *)

Lemma forallb_pointwise {A : Type} (f g : A -> bool) (l : list A) :
  (forall x, f x = g x) -> forallb f l = forallb g l.
Proof. intros H. induction l as [|x l IH]; simpl; [done | by rewrite H, IH]. Qed.

Lemma concatSpec_agree (ev1 ev2 : obj) (m : ConcatMapping) :
  (forall k, get ev1 k = get ev2 k) -> concatSpec ev1 m = concatSpec ev2 m.
Proof.
  intros H. unfold concatSpec. do 2 f_equal.
  apply map_ext. intros sel. unfold concatPart. by rewrite H.
Qed.

Lemma flatContributions_ext {A : Type} (f g : A -> contribution) (l : list A) :
  (forall x, f x = g x) -> flatContributions f l = flatContributions g l.
Proof.
  intros H. unfold flatContributions.
  f_equal; apply flat_map_ext; intros x; by rewrite H.
Qed.

Lemma allFields_agree (ev1 ev2 : obj) :
  (forall k, get ev1 k = get ev2 k) -> allFields ev1 = allFields ev2.
Proof.
  intros H. unfold allFields.
  assert (forall m, directFields ev1 m = directFields ev2 m) as Hd
    by (intros m; unfold directFields; by rewrite H).
  assert (forall m, concatFields ev1 m = concatFields ev2 m) as Hc
    by (intros m; unfold concatFields;
        by rewrite !concatExpValue_concatSpec, (concatSpec_agree ev1 ev2 m H)).
  assert (forall m, listFields ev1 m = listFields ev2 m) as Hl
    by (intros m; unfold listFields; by rewrite H).
  assert (pictureFields ev1 = pictureFields ev2) as ->
    by (unfold pictureFields; by rewrite H).
  assert (dobField ev1 = dobField ev2) as ->
    by (unfold dobField; by rewrite H).
  rewrite (flatContributions_ext _ _ _ Hd), (flatContributions_ext _ _ _ Hc),
    (flatContributions_ext _ _ _ Hl).
  reflexivity.
Qed.

Lemma wellTyped_agree (ev1 ev2 : obj) :
  (forall k, get ev1 k = get ev2 k) -> wellTyped ev1 = wellTyped ev2.
Proof.
  intros H. unfold wellTyped. rewrite H. f_equal.
  apply forallb_pointwise. intros m. by rewrite H.
Qed.

(** C9. Two inputs that read the same at every key, checked at the same
    current date, build the same populated records and the same missing
    labels, or fail alike, and enqueue the same assertions. *)
Theorem validateSubmission_deterministic (ev1 ev2 : obj) :
  (forall k, get ev1 k = get ev2 k) ->
  fieldsOf ev1 = fieldsOf ev2
  /\ (forall st1 st2, fieldsOf ev1 = Normal st1 -> fieldsOf ev2 = Normal st2 ->
        map label (populatedFields st1) = map label (populatedFields st2)
        /\ missingFields st1 = missingFields st2)
  /\ (forall q, validateSubmission ev1 q = validateSubmission ev2 q).
Proof.
  intros H.
  assert (fieldsOf ev1 = fieldsOf ev2) as E.
  { destruct (wellTyped ev1) eqn:Hwt.
    - rewrite (fieldsOf_wellTyped ev1 Hwt).
      rewrite (wellTyped_agree ev1 ev2 H) in Hwt.
      rewrite (fieldsOf_wellTyped ev2 Hwt). by rewrite (allFields_agree ev1 ev2 H).
    - rewrite (fieldsOf_illTyped ev1 Hwt).
      rewrite (wellTyped_agree ev1 ev2 H) in Hwt.
      by rewrite (fieldsOf_illTyped ev2 Hwt). }
  split; [exact E |]. split.
  - intros st1 st2 H1 H2. rewrite E, H2 in H1. by injection H1 as ->.
  - intros q. unfold validateSubmission. by rewrite E.
Qed.

(** ** Claims about the helpers of fill *)

(** C6. With a falsy state nothing is enqueued, whatever the city; with
    a non-empty state string and a falsy city only the state is typed;
    and a chain on the city field is enqueued only when both are truthy,
    right after the chain that types the state. *)
Theorem selectLocation_gating (state city : value) :
  (truthy state = false -> forall q, selectLocation state city q = Normal (tt, q))
  /\ (forall s, state = VStr s -> s <> "" -> truthy city = false ->
        forall q, selectLocation state city q
                  = Normal (tt, (q ++ [ [Get (VStr "#state");
                                         TypeText (VStr (s +:+ "{enter}"))] ])%list))
  /\ (forall q, exists new,
        selectLocation state city q = Normal (tt, (q ++ new)%list)
        /\ (forall c, In c new -> touches "#city" c = true ->
              truthy state = true /\ truthy city = true
              /\ new = [ [Get (VStr "#state");
                          TypeText (VStr (toString state +:+ "{enter}"))]; c ])).
Proof.
  pose proof (selectLocation_emits state city) as He. split; [| split].
  - intros Hs q. rewrite He. unfold locationCommands. rewrite Hs. by rewrite app_nil_r.
  - intros s -> Hs Hc q. rewrite He. unfold locationCommands. rewrite Hc. simpl.
    by destruct (String.eqb_spec s "").
  - intros q. exists (locationCommands state city). split; [apply He |].
    unfold locationCommands. intros c Hin Ht.
    destruct (truthy state); [| done].
    destruct (truthy city).
    + destruct Hin as [<- | [<- | []]]; [discriminate | done].
    + destruct Hin as [<- | []]. discriminate.
Qed.

Lemma subjectCycle_lookup (subjects : list value) (i : nat) (s : value) :
  subjects !! i = Some s ->
  flat_map subjectCycle subjects !! (2 * i)%nat
  = Some [Get (VStr "#subjectsContainer"); TypeText s]
  /\ flat_map subjectCycle subjects !! (2 * i + 1)%nat
     = Some [Get (VStr ".subjects-auto-complete__menu"); ShouldHaveLength 1; Click false].
Proof.
  revert i. induction subjects as [|s0 r IH]; intros i Hi; [done |].
  destruct i as [|i].
  - injection Hi as ->. done.
  - replace (2 * S i)%nat with (S (S (2 * i))) by lia.
    replace (S (S (2 * i)) + 1)%nat with (S (S (2 * i + 1))) by lia.
    apply (IH i Hi).
Qed.

(** C7. For every list of subjects the queue receives, subject by
    subject in list order, the chain that types the subject followed by
    the chain that checks the dropdown has one entry and clicks it: two
    chains per subject, the cycle of subject i at positions 2i and
    2i + 1; for Maths and Physics that is two cycles. *)
Theorem selectSubjects_cycles (subjects : list value) :
  (forall q, selectSubjects (VArr subjects) q
             = Normal (tt, (q ++ flat_map subjectCycle subjects)%list))
  /\ length (flat_map subjectCycle subjects) = (2 * length subjects)%nat
  /\ (forall i s, subjects !! i = Some s ->
        flat_map subjectCycle subjects !! (2 * i)%nat
        = Some [Get (VStr "#subjectsContainer"); TypeText s]
        /\ flat_map subjectCycle subjects !! (2 * i + 1)%nat
           = Some [Get (VStr ".subjects-auto-complete__menu");
                   ShouldHaveLength 1; Click false])
  /\ commands (selectSubjects (VArr [VStr "Maths"; VStr "Physics"]))
     = Normal
         [ [Get (VStr "#subjectsContainer"); TypeText (VStr "Maths")];
           [Get (VStr ".subjects-auto-complete__menu"); ShouldHaveLength 1; Click false];
           [Get (VStr "#subjectsContainer"); TypeText (VStr "Physics")];
           [Get (VStr ".subjects-auto-complete__menu"); ShouldHaveLength 1; Click false] ].
Proof.
  split; [| split; [| split; [| reflexivity]]].
  - intros q. by apply (selectSubjects_emits (VArr subjects)).
  - induction subjects as [|s r IH]; simpl; [done | rewrite IH; lia].
  - apply subjectCycle_lookup.
Qed.

(** ** Which controls each part of fill acts on *)

Lemma isTextKey_cases (field : string) :
  isTextKey field = true ->
  field = "firstName" \/ field = "lastName" \/ field = "email"
  \/ field = "mobile" \/ field = "address".
Proof.
  unfold isTextKey, textKeys. simpl. intros H.
  repeat match type of H with
         | context [String.eqb ?a ?b] =>
             destruct (String.eqb_spec a b); [subst; tauto |]
         end.
  discriminate.
Qed.

Ltac text_cases H :=
  apply isTextKey_cases in H as [-> | [-> | [-> | [-> | ->]]]].

Ltac off_control :=
  repeat (apply Forall_cons; split; [reflexivity |]); apply Forall_nil_2.

Lemma Forall_flat_map {A B : Type} (P : B -> Prop) (g : A -> list B) (l : list A) :
  (forall x, In x l -> Forall P (g x)) -> Forall P (flat_map g l).
Proof.
  intros H. induction l as [|x l IH]; simpl; [apply Forall_nil_2 |].
  apply Forall_app. split; [apply H; by left |].
  apply IH. intros y Hy. apply H. by right.
Qed.

Lemma dob_part (fv : obj) (k : control) :
  validControl k = true -> k <> DateOfBirth ->
  Forall (fun c => onControl k c = false) (dobCommands fv).
Proof.
  intros Hv Hk. unfold dobCommands.
  destruct (truthy (get fv "dob")); [| apply Forall_nil_2].
  destruct k as [f| | | | | | |]; try done; try off_control.
  simpl in Hv. text_cases Hv; off_control.
Qed.

Lemma gender_part (gender : value) (k : control) :
  validControl k = true -> k <> Gender ->
  Forall (fun c => onControl k c = false) (genderCommands gender).
Proof.
  intros Hv Hk. unfold genderCommands.
  destruct (truthy gender); [| apply Forall_nil_2].
  destruct k as [f| | | | | | |]; try done; try off_control.
  simpl in Hv. text_cases Hv; off_control.
Qed.

Lemma subjects_part (subjects : list value) (k : control) :
  validControl k = true -> k <> Subjects ->
  Forall (fun c => onControl k c = false) (flat_map subjectCycle subjects).
Proof.
  intros Hv Hk. apply Forall_flat_map. intros s _. unfold subjectCycle.
  destruct k as [f| | | | | | |]; try done; try off_control.
  simpl in Hv. text_cases Hv; off_control.
Qed.

Lemma hobbies_part (hobbies : list value) (k : control) :
  validControl k = true -> k <> Hobbies ->
  Forall (fun c => onControl k c = false) (flat_map hobbyClick hobbies).
Proof.
  intros Hv Hk. apply Forall_flat_map. intros s _. unfold hobbyClick.
  destruct k as [f| | | | | | |]; try done; try off_control.
Qed.

Lemma picture_part (file : value) (k : control) :
  validControl k = true -> k <> Picture ->
  Forall (fun c => onControl k c = false) (pictureCommands file).
Proof.
  intros Hv Hk. unfold pictureCommands.
  destruct (truthy file); [| apply Forall_nil_2].
  destruct k as [f| | | | | | |]; try done; try off_control.
  simpl in Hv. text_cases Hv; off_control.
Qed.

Lemma location_part (state city : value) (k : control) :
  validControl k = true -> k <> State -> k <> City ->
  Forall (fun c => onControl k c = false) (locationCommands state city).
Proof.
  intros Hv Hs Hc. unfold locationCommands.
  destruct (truthy state); [| apply Forall_nil_2].
  destruct (truthy city);
    destruct k as [f| | | | | | |]; try done; try off_control;
    simpl in Hv; text_cases Hv; off_control.
Qed.

Lemma location_part_city (state city : value) :
  truthy city = false ->
  Forall (fun c => onControl City c = false) (locationCommands state city).
Proof.
  intros Hc. unfold locationCommands. rewrite Hc.
  destruct (truthy state); [off_control | apply Forall_nil_2].
Qed.

Lemma text_part (fv : obj) (fields : list string) (k : control) :
  forallb isTextKey fields = true ->
  (forall f, k <> TextInput f) ->
  Forall (fun c => onControl k c = false) (flat_map (textCommands fv) fields).
Proof.
  intros Hf Hk. apply Forall_flat_map. intros f Hin.
  rewrite forallb_forall in Hf. specialize (Hf f Hin).
  unfold textCommands. cbv zeta.
  destruct (truthy (get fv f));
    destruct k as [f'| | | | | | |]; try (by destruct (Hk f'));
    text_cases Hf; off_control.
Qed.

Lemma filter_none {A : Type} (P : A -> bool) (l : list A) :
  Forall (fun x => P x = false) l -> List.filter P l = [].
Proof.
  induction 1 as [|x l Hx _ IH]; simpl; [done | by rewrite Hx].
Qed.

(** One chain on a text input per occurrence of its field with a truthy
    value, and none for the other text fields. *)
Lemma text_filter_one (fv : obj) (f f' : string) :
  isTextKey f = true -> isTextKey f' = true ->
  List.filter (onControl (TextInput f)) (textCommands fv f')
  = if String.eqb f' f && truthy (get fv f')
    then [ [Get (VStr (selectorOf f')); TypeText (get fv f')] ]
    else [].
Proof.
  intros Hf Hf'. unfold textCommands. cbv zeta.
  text_cases Hf; text_cases Hf'; destruct (truthy (get fv _)); reflexivity.
Qed.

Lemma text_filter (fv : obj) (fields : list string) (f : string) :
  forallb isTextKey fields = true -> isTextKey f = true ->
  List.filter (onControl (TextInput f)) (flat_map (textCommands fv) fields)
  = if truthy (get fv f)
    then repeat [Get (VStr (selectorOf f)); TypeText (get fv f)]
                (count_occ string_dec fields f)
    else [].
Proof.
  intros Hfs Hf. induction fields as [|f' r IH].
  - simpl. by destruct (truthy (get fv f)).
  - simpl in Hfs. apply andb_true_iff in Hfs as [Hf' Hr].
    change (flat_map (textCommands fv) (f' :: r))
      with (textCommands fv f' ++ flat_map (textCommands fv) r)%list.
    rewrite List.filter_app, (IH Hr), (text_filter_one fv f f' Hf Hf').
    destruct (string_dec f' f) as [-> | Hne].
    + rewrite String.eqb_refl, count_occ_cons_eq by done. simpl.
      by destruct (truthy (get fv f)).
    + rewrite count_occ_cons_neq by done.
      apply String.eqb_neq in Hne. by rewrite Hne.
Qed.

Lemma fill_avoids (fv : obj) (k : control) :
  forallb isTextKey fieldTypes_text = true ->
  (forall f, k <> TextInput f) ->
  (k = DateOfBirth -> dobCommands fv = []) ->
  (k = Gender -> genderCommands (get fv "gender") = []) ->
  (k = Subjects -> arrayOf (get fv "subjects") = []) ->
  (k = Hobbies -> arrayOf (get fv "hobbies") = []) ->
  (k = Picture -> pictureCommands (get fv "picture") = []) ->
  (k = State -> locationCommands (get fv "state") (get fv "city") = []) ->
  (k = City ->
   Forall (fun c => onControl City c = false)
          (locationCommands (get fv "state") (get fv "city"))) ->
  Forall (fun c => onControl k c = false) (fillCommands fv).
Proof.
  intros Hf Hk Hdob Hg Hs Hh Hp Hst Hc. unfold fillCommands.
  rewrite !Forall_app. split; [by apply text_part |].
  destruct k as [f| | | | | | |]; [by destruct (Hk f) | ..].
  all: repeat split;
    first [ apply dob_part; [done | discriminate]
          | rewrite Hdob by done; apply Forall_nil_2
          | apply gender_part; [done | discriminate]
          | rewrite Hg by done; apply Forall_nil_2
          | apply subjects_part; [done | discriminate]
          | rewrite Hs by done; apply Forall_nil_2
          | apply hobbies_part; [done | discriminate]
          | rewrite Hh by done; apply Forall_nil_2
          | apply picture_part; [done | discriminate]
          | rewrite Hp by done; apply Forall_nil_2
          | apply location_part; [done | discriminate | discriminate]
          | rewrite Hst by done; apply Forall_nil_2
          | by apply Hc ].
Qed.

Lemma falsy_arrayParam (v : value) :
  truthy v = false -> isArrayParam v = true -> arrayOf v = [].
Proof. by destruct v. Qed.

(** C8, amended. A fill whose list of text fields names text inputs, on
    values whose subjects and hobbies are arrays or left out, returns
    normally;
    the chains on a text input are one typing of its value per occurrence
    of the field when the value is truthy and none otherwise; and an
    optional field with a falsy value has no chain on its control. *)
Theorem fill_skips_absent (formValues : option obj) :
  let fv := default defaultValues formValues in
  forallb isTextKey fieldTypes_text = true ->
  isArrayParam (get fv "subjects") = true ->
  isArrayParam (get fv "hobbies") = true ->
  exists cmds,
    commands (fill formValues) = Normal cmds
    /\ (forall field, In field fieldTypes_text ->
          List.filter (onControl (TextInput field)) cmds
          = if truthy (get fv field)
            then repeat [Get (VStr (selectorOf field)); TypeText (get fv field)]
                        (count_occ string_dec fieldTypes_text field)
            else [])
    /\ (truthy (get fv "gender") = false ->
          forall c, In c cmds -> onControl Gender c = false)
    /\ (truthy (get fv "picture") = false ->
          forall c, In c cmds -> onControl Picture c = false)
    /\ (truthy (get fv "state") = false ->
          forall c, In c cmds -> onControl State c = false /\ onControl City c = false)
    /\ (truthy (get fv "city") = false ->
          forall c, In c cmds -> onControl City c = false)
    /\ (truthy (get fv "subjects") = false ->
          forall c, In c cmds -> onControl Subjects c = false)
    /\ (truthy (get fv "hobbies") = false ->
          forall c, In c cmds -> onControl Hobbies c = false)
    /\ (truthy (get fv "dob") = false ->
          forall c, In c cmds -> onControl DateOfBirth c = false).
Proof.
  intros fv Hf Hs Hh. exists (fillCommands fv).
  split; [apply emitsQ_commands; by apply fill_emits |].
  split.
  { intros field Hin.
    assert (isTextKey field = true) as Hk
      by (rewrite forallb_forall in Hf; by apply Hf).
    unfold fillCommands. rewrite !List.filter_app.
    rewrite (text_filter fv _ field Hf Hk).
    rewrite (filter_none _ (dobCommands fv)) by (by apply dob_part).
    rewrite (filter_none _ (genderCommands _)) by (by apply gender_part).
    rewrite (filter_none _ (flat_map subjectCycle _)) by (by apply subjects_part).
    rewrite (filter_none _ (flat_map hobbyClick _)) by (by apply hobbies_part).
    rewrite (filter_none _ (pictureCommands _)) by (by apply picture_part).
    rewrite (filter_none _ (locationCommands _ _)) by (by apply location_part).
    by rewrite !app_nil_r. }
  assert (forall k, (forall c, In c (fillCommands fv) -> onControl k c = false)
                    <-> Forall (fun c => onControl k c = false) (fillCommands fv)) as HF.
  { intros k. rewrite Forall_forall. split; intros H c Hc; apply H;
      by apply list_elem_of_In. }
  split; [| split; [| split; [| split; [| split; [| split]]]]].
  - intros E. apply HF, fill_avoids; try done.
    intros _. unfold genderCommands. by rewrite E.
  - intros E. apply HF, fill_avoids; try done.
    intros _. unfold pictureCommands. by rewrite E.
  - intros E c Hc. split; revert c Hc; apply HF, fill_avoids; try done.
    + intros _. unfold locationCommands. by rewrite E.
    + intros _. unfold locationCommands. rewrite E. apply Forall_nil_2.
  - intros E. apply HF, fill_avoids; try done.
    intros _. by apply location_part_city.
  - intros E. apply HF, fill_avoids; try done.
    intros _. by apply falsy_arrayParam.
  - intros E. apply HF, fill_avoids; try done.
    intros _. by apply falsy_arrayParam.
  - intros E. apply HF, fill_avoids; try done.
    intros _. unfold dobCommands. by rewrite E.
Qed.

(** A subjects value that is neither left out nor an array ends [fill]
    with a TypeError before any command runs. *)
Lemma fill_throws_on_subjects (formValues : option obj) :
  let fv := default defaultValues formValues in
  isArrayParam (get fv "subjects") = false ->
  commands (fill formValues) = Throw TypeError.
Proof.
  intros fv Hs. unfold commands, fill. fold fv.
  unfold bind at 1.
  rewrite (emitsQ_forEach _ (textCommands fv)).
  2: { intros field. unfold textCommands.
       apply (emitsQ_bind _ _ [_]); [apply emitsQ_enqueue |].
       apply emitsQ_when, emitsQ_enqueue. }
  unfold bind at 1.
  rewrite (emitsQ_when _ _ _ (emitsQ_enqueue _)).
  unfold bind at 1. rewrite selectGender_emits.
  unfold bind at 1. unfold selectSubjects.
  by rewrite (throws_liftC _ TypeError) by (by apply arrayParam_throws).
Qed.

(** ** The list loop *)

Lemma distinct_middle (l1 l2 : list string) (x : string) :
  distinct (l1 ++ x :: l2) = true -> ~ In x l1 /\ ~ In x l2.
Proof.
  intros H. apply distinct_app in H as (_ & H2 & Hd).
  apply distinct_cons in H2 as (Hn & _). split; [| exact Hn].
  intros Hx. apply (Hd x Hx). by left.
Qed.

(** What the list loop does with each kind of value: an array gives one
    populated record per element, in order and next to each other, and
    the label is not missing, whatever the number of elements; a falsy
    value gives the label as missing and no populated record. *)
Lemma list_expansion (ev : obj) (m : ListMapping) :
  wellTyped ev = true ->
  distinct labelsOf = true ->
  In m (sm_list submissionMapping) ->
  exists st,
    fieldsOf ev = Normal st
    /\ (forall elems, get ev (list_selector m) = VArr elems ->
          exists before after,
            populatedFields st
            = (before
               ++ map (fun v => {| label := list_label m; expValue := v |}) elems
               ++ after)%list
            /\ (forall r, In r before \/ In r after -> label r <> list_label m)
            /\ ~ In (list_label m) (missingFields st))
    /\ (truthy (get ev (list_selector m)) = false ->
          In (list_label m) (missingFields st)
          /\ (forall r, In r (populatedFields st) -> label r <> list_label m)).
Proof.
  intros Hwt Hd Hm.
  destruct (distinct_labels Hd) as ((_ & _ & HLd) & HD & HC & HL & Hpd).
  assert (In (list_label m) (map list_label (sm_list submissionMapping)))
    as Hlab by (by apply in_map).
  assert (forall r, In r (flatContributions (directFields ev)
                            (sm_direct submissionMapping)).1 ->
                    label r <> list_label m) as Hdir.
  { intros r Hr E. apply directFields_populated in Hr as (m0 & Hm0 & Hl0 & _).
    destruct (HD (direct_label m0)) as (_ & Hn & _); [by apply in_map |].
    apply Hn. by rewrite <- Hl0, E. }
  assert (forall r, In r (flatContributions (concatFields ev)
                            (sm_concat submissionMapping)).1 ->
                    label r <> list_label m) as Hcon.
  { intros r Hr E. apply concatFields_populated in Hr as (m0 & Hm0 & Hl0 & _).
    destruct (HC (concat_label m0)) as (Hn & _); [by apply in_map |].
    apply Hn. by rewrite <- Hl0, E. }
  assert (forall r, In r (pictureFields ev).1 -> label r <> list_label m) as Hpic.
  { intros r Hr E. apply pictureFields_populated in Hr as (Hl0 & _).
    destruct (HL _ Hlab) as (Hn & _). congruence. }
  assert (label (dobField ev) <> list_label m) as Hdob.
  { intros E. destruct (HL _ Hlab) as (_ & Hn). simpl in E. congruence. }
  eexists. split; [by apply fieldsOf_wellTyped |]. split.
  - intros elems Hv.
    destruct (in_split _ _ Hm) as (l1 & l2 & Hsplit).
    rewrite Hsplit, map_app in HLd.
    destruct (distinct_middle _ _ _ HLd) as (Hn1 & Hn2).
    assert (forall l r, ~ In (list_label m) (map list_label l) ->
                        In r (flatContributions (listFields ev) l).1 ->
                        label r <> list_label m) as Hrest.
    { intros l r Hn Hr E. apply Hn.
      apply in_flat_map in Hr as (m0 & Hm0 & Hr).
      unfold listFields in Hr.
      destruct (get ev (list_selector m0)); simpl in Hr; try done.
      apply in_map_iff in Hr as (v & <- & _). simpl in E. rewrite <- E.
      by apply in_map. }
    exists ((flatContributions (directFields ev) (sm_direct submissionMapping)).1
            ++ (flatContributions (concatFields ev) (sm_concat submissionMapping)).1
            ++ (flatContributions (listFields ev) l1).1)%list,
           ((flatContributions (listFields ev) l2).1
            ++ (pictureFields ev).1 ++ [dobField ev])%list.
    split; [| split].
    + unfold allFields, joinContributions. cbn [extend emptyLocals fst snd
        populatedFields app]. rewrite Hsplit.
      unfold flatContributions at 3. cbn [fst]. rewrite flat_map_app.
      cbn [flat_map]. unfold listFields at 2. rewrite Hv. cbn [fst].
      by rewrite <- !app_assoc.
    + intros r [Hr | Hr].
      * rewrite !in_app_iff in Hr. destruct Hr as [Hr | [Hr | Hr]];
          [by apply Hdir | by apply Hcon | by apply (Hrest l1)].
      * rewrite !in_app_iff in Hr. destruct Hr as [Hr | [Hr | [<- | []]]];
          [by apply (Hrest l2) | by apply Hpic | exact Hdob].
    + intros Hin. apply allFields_missing in Hin as [Hr | [Hr | [Hr | Hr]]].
      * apply directFields_missing in Hr as (m0 & Hm0 & Hl0).
        destruct (HD (direct_label m0)) as (_ & Hn & _); [by apply in_map |].
        apply Hn. by rewrite <- Hl0.
      * apply concatFields_missing in Hr as (m0 & Hm0 & Hl0).
        destruct (HC (concat_label m0)) as (Hn & _); [by apply in_map |].
        apply Hn. by rewrite <- Hl0.
      * apply listFields_missing in Hr as (m0 & Hm0 & Hl0 & Ha).
        assert (m0 = m) as ->.
        { apply (distinct_map_inj list_label (sm_list submissionMapping)); try done.
          destruct (distinct_labels Hd) as ((_ & _ & HLd') & _). exact HLd'. }
        by rewrite Hv in Ha.
      * apply pictureFields_missing in Hr as (Hl0 & _).
        destruct (HL _ Hlab) as (Hn & _). congruence.
  - intros Hf. split.
    + apply allFields_missing. do 2 right. left. simpl.
      apply in_flat_map. exists m. split; [done |].
      unfold listFields. destruct (get ev (list_selector m)); try done; by left.
    + intros r Hr E.
      apply allFields_populated in Hr as [Hr | [Hr | [Hr | [Hr | ->]]]];
        [by apply (Hdir r) | by apply (Hcon r) | | by apply (Hpic r) | by apply Hdob].
      apply listFields_populated in Hr as (m0 & elems & Hm0 & Hl0 & Hv & _).
      assert (m0 = m) as ->.
      { apply (distinct_map_inj list_label (sm_list submissionMapping)); try done.
        congruence. }
      by rewrite Hv in Hf.
Qed.

(** ** The assertions validateSubmission enqueues *)

(** Every populated record becomes one containment assertion on the cell
    of its label, then every missing label one emptiness assertion. *)
Lemma validateSubmission_commands (ev : obj) (st : locals) :
  fieldsOf ev = Normal st ->
  forall q,
    validateSubmission ev q
    = Normal (tt, (q ++ flat_map (fun r => [ [GetCell "Label" (label r) "Values"; Then;
                                                ExpectContain (expValue r)] ])
                                   (populatedFields st)
                     ++ flat_map (fun f => [ [GetCell "Label" f "Values"; Then;
                                              ExpectEmpty] ])
                                 (missingFields st))%list).
Proof.
  intros E q. unfold validateSubmission.
  eapply emits_liftC; [exact E |].
  apply emitsQ_bind; apply emitsQ_forEach; intros x; apply emitsQ_enqueue.
Qed.

Lemma validateSubmission_throws (ev : obj) (x : exn) :
  fieldsOf ev = Throw x -> forall q, validateSubmission ev q = Throw x.
Proof. intros E q. unfold validateSubmission. by apply throws_liftC. Qed.

(** * Further properties of the page object *)

(** ** Labels of different categories *)

Lemma labels_apart :
  distinct labelsOf = true ->
  (forall a b, In a (sm_direct submissionMapping) ->
               In b (sm_concat submissionMapping) ->
               direct_label a <> concat_label b)
  /\ (forall a b, In a (sm_direct submissionMapping) ->
                  In b (sm_list submissionMapping) ->
                  direct_label a <> list_label b)
  /\ (forall a, In a (sm_direct submissionMapping) ->
                direct_label a <> sm_picture submissionMapping
                /\ direct_label a <> sm_dob submissionMapping)
  /\ (forall a b, In a (sm_concat submissionMapping) ->
                  In b (sm_list submissionMapping) ->
                  concat_label a <> list_label b)
  /\ (forall a, In a (sm_concat submissionMapping) ->
                concat_label a <> sm_picture submissionMapping
                /\ concat_label a <> sm_dob submissionMapping)
  /\ (forall a, In a (sm_list submissionMapping) ->
                list_label a <> sm_picture submissionMapping
                /\ list_label a <> sm_dob submissionMapping).
Proof.
  intros Hd. destruct (distinct_labels Hd) as (_ & HD & HC & HL & _).
  repeat split.
  - intros a b Ha Hb E.
    destruct (HD (direct_label a)) as (Hn & _); [by apply in_map |].
    apply Hn. rewrite E. by apply in_map.
  - intros a b Ha Hb E.
    destruct (HD (direct_label a)) as (_ & Hn & _); [by apply in_map |].
    apply Hn. rewrite E. by apply in_map.
  - destruct (HD (direct_label a)) as (_ & _ & Hn & _); [by apply in_map | done].
  - destruct (HD (direct_label a)) as (_ & _ & _ & Hn); [by apply in_map | done].
  - intros a b Ha Hb E.
    destruct (HC (concat_label a)) as (Hn & _); [by apply in_map |].
    apply Hn. rewrite E. by apply in_map.
  - destruct (HC (concat_label a)) as (_ & Hn & _); [by apply in_map | done].
  - destruct (HC (concat_label a)) as (_ & _ & Hn); [by apply in_map | done].
  - destruct (HL (list_label a)) as (Hn & _); [by apply in_map | done].
  - destruct (HL (list_label a)) as (_ & Hn); [by apply in_map | done].
Qed.

Lemma directFields_missing_falsy (ev : obj) (l : list DirectMapping) (x : string) :
  In x (flatContributions (directFields ev) l).2 ->
  exists m, In m l /\ x = direct_label m
            /\ truthy (get ev (direct_selector m)) = false.
Proof.
  simpl. rewrite in_flat_map. intros (m & Hm & Hx). exists m.
  unfold directFields in Hx. simpl in Hx.
  destruct (truthy (get ev (direct_selector m))); simpl in Hx; [done |].
  destruct Hx as [<- | []]. done.
Qed.

Lemma concatFields_missing_empty (ev : obj) (l : list ConcatMapping) (x : string) :
  In x (flatContributions (concatFields ev) l).2 ->
  exists m, In m l /\ x = concat_label m /\ concatExpValue ev m = "".
Proof.
  simpl. rewrite in_flat_map. intros (m & Hm & Hx). exists m.
  unfold concatFields in Hx. simpl in Hx.
  destruct (String.eqb_spec (concatExpValue ev m) ""); simpl in Hx; [| done].
  destruct Hx as [<- | []]. done.
Qed.

Lemma directFields_truthy (ev : obj) (m : DirectMapping) :
  truthy (get ev (direct_selector m)) = true ->
  directFields ev m
  = ([ {| label := direct_label m; expValue := get ev (direct_selector m) |} ], []).
Proof. intros E. unfold directFields. simpl. by rewrite E. Qed.

Lemma directFields_falsy (ev : obj) (m : DirectMapping) :
  truthy (get ev (direct_selector m)) = false ->
  directFields ev m = ([], [direct_label m]).
Proof. intros E. unfold directFields. simpl. by rewrite E. Qed.

(** Where a populated record comes from, with what its part knows. *)
Lemma populated_origin (ev : obj) (r : PopulatedField) :
  In r (allFields ev).1 ->
  (exists m, In m (sm_direct submissionMapping) /\ label r = direct_label m
             /\ expValue r = get ev (direct_selector m)
             /\ truthy (get ev (direct_selector m)) = true)
  \/ (exists m, In m (sm_concat submissionMapping) /\ label r = concat_label m
                /\ expValue r = VStr (concatExpValue ev m)
                /\ concatExpValue ev m <> "")
  \/ (exists m elems, In m (sm_list submissionMapping) /\ label r = list_label m
                      /\ get ev (list_selector m) = VArr elems
                      /\ In (expValue r) elems)
  \/ (label r = sm_picture submissionMapping
      /\ truthy (get ev "picture") = true
      /\ pictureName (get ev "picture") = Normal (expValue r))
  \/ r = dobField ev.
Proof.
  intros Hr. apply allFields_populated in Hr as [Hr | [Hr | [Hr | [Hr | Hr]]]].
  - left. by apply directFields_populated.
  - right. left. by apply concatFields_populated.
  - do 2 right. left. by apply listFields_populated.
  - do 3 right. left. by apply pictureFields_populated.
  - by do 4 right.
Qed.

(** Where a missing label comes from. *)
Lemma missing_origin (ev : obj) (x : string) :
  In x (allFields ev).2 ->
  (exists m, In m (sm_direct submissionMapping) /\ x = direct_label m
             /\ truthy (get ev (direct_selector m)) = false)
  \/ (exists m, In m (sm_concat submissionMapping) /\ x = concat_label m
                /\ concatExpValue ev m = "")
  \/ (exists m, In m (sm_list submissionMapping) /\ x = list_label m
                /\ isArray (get ev (list_selector m)) = false)
  \/ (x = sm_picture submissionMapping /\ truthy (get ev "picture") = false).
Proof.
  intros Hx. apply allFields_missing in Hx as [Hx | [Hx | [Hx | Hx]]].
  - left. by apply directFields_missing_falsy.
  - right. left. by apply concatFields_missing_empty.
  - do 2 right. left. by apply listFields_missing.
  - do 3 right. by apply pictureFields_missing.
Qed.

(** ** The direct loop *)

(** X1. A direct mapping whose value is truthy gives exactly one
    populated record, holding the raw value, and its label is not
    missing; a falsy or absent value gives the label as missing and no
    populated record. *)
Theorem direct_classification (ev : obj) (m : DirectMapping) :
  wellTyped ev = true ->
  distinct labelsOf = true ->
  In m (sm_direct submissionMapping) ->
  exists st,
    fieldsOf ev = Normal st
    /\ (truthy (get ev (direct_selector m)) = true ->
          let r := {| label := direct_label m;
                      expValue := get ev (direct_selector m) |} in
          In r (populatedFields st)
          /\ (forall r', In r' (populatedFields st) ->
                         label r' = direct_label m -> r' = r)
          /\ ~ In (direct_label m) (missingFields st))
    /\ (truthy (get ev (direct_selector m)) = false ->
          In (direct_label m) (missingFields st)
          /\ (forall r, In r (populatedFields st) -> label r <> direct_label m)).
Proof.
  intros Hwt Hd Hm.
  destruct (labels_apart Hd) as (Hdc & Hdl & Hdp & _).
  destruct (distinct_labels Hd) as ((HD & _) & _).
  assert (forall r, In r (allFields ev).1 -> label r = direct_label m ->
                    r = {| label := direct_label m;
                           expValue := get ev (direct_selector m) |}
                    /\ truthy (get ev (direct_selector m)) = true) as Hpop.
  { intros r Hr E.
    apply populated_origin in Hr
      as [(m0 & Hm0 & Hl & Hv & Ht) | [(m0 & Hm0 & Hl & _)
          | [(m0 & el & Hm0 & Hl & _) | [(Hl & _) | ->]]]].
    - assert (m0 = m) as ->
        by (apply (distinct_map_inj direct_label _ _ _ HD Hm0 Hm); congruence).
      split; [| done]. destruct r. simpl in *. congruence.
    - destruct (Hdc m m0 Hm Hm0). congruence.
    - destruct (Hdl m m0 Hm Hm0). congruence.
    - destruct (Hdp m Hm) as (Hn & _). congruence.
    - destruct (Hdp m Hm) as (_ & Hn). simpl in E. congruence. }
  assert (In (direct_label m) (allFields ev).2 ->
          truthy (get ev (direct_selector m)) = false) as Hmiss.
  { intros Hx.
    apply missing_origin in Hx
      as [(m0 & Hm0 & Hl & Ht) | [(m0 & Hm0 & Hl & _)
          | [(m0 & Hm0 & Hl & _) | (Hl & _)]]].
    - assert (m0 = m) as ->
        by (apply (distinct_map_inj direct_label _ _ _ HD Hm0 Hm); congruence).
      done.
    - destruct (Hdc m m0 Hm Hm0). congruence.
    - destruct (Hdl m m0 Hm Hm0). congruence.
    - destruct (Hdp m Hm) as (Hn & _). congruence. }
  eexists. split; [by apply fieldsOf_wellTyped |]. split.
  - intros Ht r. split; [| split].
    + apply allFields_populated. left. simpl. apply in_flat_map.
      exists m. split; [done |]. rewrite (directFields_truthy ev m Ht). by left.
    + intros r' Hr' E. by apply Hpop.
    + intros Hx. apply Hmiss in Hx. congruence.
  - intros Hf. split.
    + apply allFields_missing. left. simpl. apply in_flat_map.
      exists m. split; [done |]. rewrite (directFields_falsy ev m Hf). by left.
    + intros r Hr E. destruct (Hpop r Hr E) as (_ & Ht). congruence.
Qed.

(** ** The concatenation loop, exactly *)

Lemma string_app_nonempty_l (a b : string) : a <> "" -> a +:+ b <> "".
Proof. destruct a; [done | discriminate]. Qed.

Lemma concatSpec_empty_iff (ev : obj) (m : ConcatMapping) :
  concatSpec ev m = ""
  <-> forall sel, In sel (concat_selectors m) -> truthy (concatPart ev m sel) = false.
Proof.
  unfold concatSpec. induction (concat_selectors m) as [|sel sels IH].
  - simpl. split; [intros _ s [] | done].
  - change (map (concatPart ev m) (sel :: sels))
      with (concatPart ev m sel :: map (concatPart ev m) sels).
    cbn [List.filter]. destruct (truthy (concatPart ev m sel)) eqn:Ht.
    + rewrite joinWith_cons. split.
      * intros E. exfalso. revert E. apply string_app_nonempty_l.
        apply toString_truthy; [done | apply concatPart_not_array].
      * intros H. specialize (H sel (or_introl eq_refl)). congruence.
    + rewrite IH. split.
      * intros H s [<- | Hs]; [done | by apply H].
      * intros H s Hs. apply H. by right.
Qed.

(** X2. The label of a concatenated mapping is missing exactly when the
    part of every selector is falsy, a list counting through its join;
    as soon as one part is truthy the label has its populated record,
    whose value is the non-empty accumulated string, and is not
    missing. *)
Theorem concat_classification (ev : obj) (m : ConcatMapping) :
  wellTyped ev = true ->
  distinct labelsOf = true ->
  In m (sm_concat submissionMapping) ->
  exists st,
    fieldsOf ev = Normal st
    /\ (In (concat_label m) (missingFields st)
        <-> forall sel, In sel (concat_selectors m) ->
                        truthy (concatPart ev m sel) = false)
    /\ ((exists sel, In sel (concat_selectors m)
                     /\ truthy (concatPart ev m sel) = true) ->
        concatExpValue ev m <> ""
        /\ In {| label := concat_label m; expValue := VStr (concatExpValue ev m) |}
              (populatedFields st)
        /\ ~ In (concat_label m) (missingFields st)).
Proof.
  intros Hwt Hd Hm.
  destruct (labels_apart Hd) as (Hdc & _ & _ & Hcl & Hcp & _).
  destruct (distinct_labels Hd) as ((_ & HC & _) & _).
  assert (In (concat_label m) (allFields ev).2 <-> concatExpValue ev m = "") as Hiff.
  { split.
    - intros Hx.
      apply missing_origin in Hx
        as [(m0 & Hm0 & Hl & _) | [(m0 & Hm0 & Hl & He)
            | [(m0 & Hm0 & Hl & _) | (Hl & _)]]].
      + destruct (Hdc m0 m Hm0 Hm). congruence.
      + assert (m0 = m) as ->
          by (apply (distinct_map_inj concat_label _ _ _ HC Hm0 Hm); congruence).
        done.
      + destruct (Hcl m m0 Hm Hm0). congruence.
      + destruct (Hcp m Hm) as (Hn & _). congruence.
    - intros He. apply allFields_missing. right. left. simpl.
      apply in_flat_map. exists m. split; [done |].
      unfold concatFields. rewrite He. by left. }
  eexists. split; [by apply fieldsOf_wellTyped |]. split.
  - destruct (extend_emptyLocals (allFields ev)) as (_ & ->).
    rewrite Hiff, concatExpValue_concatSpec. apply concatSpec_empty_iff.
  - intros (sel & Hsel & Ht).
    assert (concatExpValue ev m <> "") as Hne.
    { rewrite concatExpValue_concatSpec, concatSpec_empty_iff.
      intros H. specialize (H sel Hsel). congruence. }
    split; [exact Hne |]. split.
    + apply allFields_populated. right. left. simpl.
      apply in_flat_map. exists m. split; [done |].
      unfold concatFields. simpl.
      destruct (String.eqb_spec (concatExpValue ev m) ""); [done | by left].
    + intros Hx. by apply Hiff in Hx.
Qed.

(** ** Invariants of the two arrays *)

Lemma distinct_NoDup (l : list string) : distinct l = true -> NoDup l.
Proof.
  induction l as [|x l IH]; [constructor |].
  intros (Hn & Hl)%distinct_cons. constructor; [| by apply IH].
  by rewrite list_elem_of_In.
Qed.

Lemma flat_map_sublist {A : Type} (g : A -> list string) (f : A -> string)
    (l : list A) :
  (forall x, g x = [] \/ g x = [f x]) ->
  flat_map g l `sublist_of` map f l.
Proof.
  intros H. induction l as [|x l IH]; simpl; [constructor |].
  destruct (H x) as [-> | ->]; simpl; by constructor.
Qed.

Lemma missing_sublist (ev : obj) : (allFields ev).2 `sublist_of` labelsOf.
Proof.
  unfold allFields, joinContributions, labelsOf. cbn [fst snd].
  rewrite app_nil_r. repeat apply sublist_app.
  - apply flat_map_sublist. intros m. unfold directFields. simpl.
    destruct (truthy _); [by left | by right].
  - apply flat_map_sublist. intros m. unfold concatFields. simpl.
    destruct (negb _); [by left | by right].
  - apply flat_map_sublist. intros m. unfold listFields.
    destruct (get ev (list_selector m)); [by right .. | by left | by right].
  - unfold pictureFields. simpl. destruct (truthy (get ev "picture")).
    + destruct (pictureName _); simpl; apply sublist_nil_l.
    + simpl. do 2 constructor. apply sublist_nil_l.
Qed.

(** X3. The missing labels are labels of the mapping and come in the
    order of the mapping (direct, concat, list, picture), each mapping
    adding its label at most once; with distinct labels none is recorded
    twice. *)
Theorem missing_in_mapping_order (ev : obj) :
  wellTyped ev = true ->
  exists st,
    fieldsOf ev = Normal st
    /\ missingFields st `sublist_of` labelsOf
    /\ (distinct labelsOf = true -> NoDup (missingFields st)).
Proof.
  intros Hwt. eexists. split; [by apply fieldsOf_wellTyped |].
  destruct (extend_emptyLocals (allFields ev)) as (_ & ->).
  split; [apply missing_sublist |].
  intros Hd. eapply sublist_NoDup; [by apply distinct_NoDup | apply missing_sublist].
Qed.

(** X4. With distinct labels no label is both populated and missing. *)
Theorem never_populated_and_missing (ev : obj) :
  wellTyped ev = true ->
  distinct labelsOf = true ->
  exists st,
    fieldsOf ev = Normal st
    /\ (forall r, In r (populatedFields st) -> ~ In (label r) (missingFields st)).
Proof.
  intros Hwt Hd.
  destruct (labels_apart Hd) as (Hdc & Hdl & Hdp & Hcl & Hcp & Hlp).
  destruct (distinct_labels Hd) as ((HD & HC & HL) & _ & _ & _ & Hpd).
  eexists. split; [by apply fieldsOf_wellTyped |].
  intros r Hr Hx.
  apply populated_origin in Hr
    as [(m & Hm & Hl & _ & Ht) | [(m & Hm & Hl & _ & Hne)
        | [(m & el & Hm & Hl & Hv & _) | [(Hl & Ht & _) | ->]]]];
    apply missing_origin in Hx
      as [(m' & Hm' & Hl' & Hf) | [(m' & Hm' & Hl' & He)
          | [(m' & Hm' & Hl' & Ha) | (Hl' & Hf)]]].
  - assert (m' = m) as ->
      by (apply (distinct_map_inj direct_label _ _ _ HD Hm' Hm); congruence).
    congruence.
  - destruct (Hdc m m' Hm Hm'). congruence.
  - destruct (Hdl m m' Hm Hm'). congruence.
  - destruct (Hdp m Hm) as (Hn & _). congruence.
  - destruct (Hdc m' m Hm' Hm). congruence.
  - assert (m' = m) as ->
      by (apply (distinct_map_inj concat_label _ _ _ HC Hm' Hm); congruence).
    congruence.
  - destruct (Hcl m m' Hm Hm'). congruence.
  - destruct (Hcp m Hm) as (Hn & _). congruence.
  - destruct (Hdl m' m Hm' Hm). congruence.
  - destruct (Hcl m' m Hm' Hm). congruence.
  - assert (m' = m) as ->
      by (apply (distinct_map_inj list_label _ _ _ HL Hm' Hm); congruence).
    by rewrite Hv in Ha.
  - destruct (Hlp m Hm) as (Hn & _). congruence.
  - destruct (Hdp m' Hm') as (Hn & _). congruence.
  - destruct (Hcp m' Hm') as (Hn & _). congruence.
  - destruct (Hlp m' Hm') as (Hn & _). congruence.
  - congruence.
  - destruct (Hdp m' Hm') as (_ & Hn). simpl in Hl'. congruence.
  - destruct (Hcp m' Hm') as (_ & Hn). simpl in Hl'. congruence.
  - destruct (Hlp m' Hm') as (_ & Hn). simpl in Hl'. congruence.
  - simpl in Hl'. congruence.
Qed.

Lemma pictureName_wellTyped (v : value) :
  truthy v = true ->
  negb (truthy v) || isString v || isArray v = true ->
  exists name, pictureName v = Normal name.
Proof.
  intros Ht H. rewrite Ht in H. simpl in H.
  destruct v; try discriminate; simpl; eauto.
Qed.

Lemma wellTyped_parts (ev : obj) :
  wellTyped ev = true ->
  (forall m, In m (sm_list submissionMapping) ->
             truthy (get ev (list_selector m)) = true ->
             isArray (get ev (list_selector m)) = true)
  /\ (negb (truthy (get ev "picture")) || isString (get ev "picture")
      || isArray (get ev "picture") = true).
Proof.
  unfold wellTyped. rewrite andb_true_iff, forallb_forall. intros [Hl Hp].
  split; [| exact Hp]. intros m Hm Ht. specialize (Hl m Hm). simpl in Hl.
  by rewrite Ht in Hl.
Qed.

(** A label of the mapping is populated, or missing, or the label of a
    list mapping whose value is an empty array. *)
Lemma classified_or_empty_list (ev : obj) (x : string) :
  wellTyped ev = true ->
  In x labelsOf ->
  exists st,
    fieldsOf ev = Normal st
    /\ ((exists r, In r (populatedFields st) /\ label r = x)
        \/ In x (missingFields st)
        \/ (exists m, In m (sm_list submissionMapping) /\ list_label m = x
                      /\ get ev (list_selector m) = VArr [])).
Proof.
  intros Hwt Hx. destruct (wellTyped_parts ev Hwt) as (Hl & Hp).
  eexists. split; [by apply fieldsOf_wellTyped |].
  destruct (extend_emptyLocals (allFields ev)) as (-> & ->).
  unfold labelsOf in Hx. rewrite !in_app_iff in Hx.
  destruct Hx as [Hx | [Hx | [Hx | [<- | [<- | []]]]]].
  - apply in_map_iff in Hx as (m & <- & Hm).
    destruct (truthy (get ev (direct_selector m))) eqn:Ht.
    + left. exists {| label := direct_label m;
                      expValue := get ev (direct_selector m) |}.
      split; [| reflexivity].
      apply allFields_populated. left. simpl. apply in_flat_map.
      exists m. split; [done |]. rewrite (directFields_truthy ev m Ht). by left.
    + right. left. apply allFields_missing. left. simpl. apply in_flat_map.
      exists m. split; [done |]. rewrite (directFields_falsy ev m Ht). by left.
  - apply in_map_iff in Hx as (m & <- & Hm).
    destruct (String.eqb_spec (concatExpValue ev m) "") as [He | Hne].
    + right. left. apply allFields_missing. right. left. simpl. apply in_flat_map.
      exists m. split; [done |]. unfold concatFields. rewrite He. by left.
    + left. exists {| label := concat_label m;
                      expValue := VStr (concatExpValue ev m) |}.
      split; [| reflexivity].
      apply allFields_populated. right. left. simpl. apply in_flat_map.
      exists m. split; [done |]. unfold concatFields. simpl.
      destruct (String.eqb_spec (concatExpValue ev m) ""); [done | by left].
  - apply in_map_iff in Hx as (m & <- & Hm).
    destruct (get ev (list_selector m)) as [| |b|n|s|[|v elems]|] eqn:Hv.
    6: { do 2 right. by exists m. }
    6: { left. exists {| label := list_label m; expValue := v |}.
         split; [| reflexivity].
         apply allFields_populated. do 2 right. left. simpl. apply in_flat_map.
         exists m. split; [done |]. unfold listFields. rewrite Hv. by left. }
    all: right; left; apply allFields_missing; do 2 right; left; simpl;
      apply in_flat_map; exists m; (split; [done |]);
      unfold listFields; rewrite Hv; by left.
  - pose proof (fun Ht => pictureName_wellTyped (get ev "picture") Ht Hp) as Hname.
    destruct (truthy (get ev "picture")) eqn:Ht.
    + destruct (Hname eq_refl) as (name & Hn).
      left. exists {| label := sm_picture submissionMapping; expValue := name |}.
      split; [| reflexivity].
      apply allFields_populated. do 3 right. left.
      unfold pictureFields. simpl. rewrite Ht, Hn. by left.
    + right. left. apply allFields_missing. do 3 right.
      rewrite (pictureFields_falsy ev Ht). by left.
  - left. exists (dobField ev). split; [| reflexivity].
    apply allFields_populated. by do 4 right.
Qed.

(** X5. With distinct labels, every label of the mapping is populated or
    missing, with one exception: the label of a list mapping whose value
    is an empty array is in neither array, not missing and under no
    populated record. *)
Theorem every_label_classified (ev : obj) (x : string) :
  wellTyped ev = true ->
  distinct labelsOf = true ->
  In x labelsOf ->
  exists st,
    fieldsOf ev = Normal st
    /\ ((exists r, In r (populatedFields st) /\ label r = x)
        \/ In x (missingFields st)
        \/ (exists m, In m (sm_list submissionMapping) /\ list_label m = x
                      /\ get ev (list_selector m) = VArr []))
    /\ ((exists m, In m (sm_list submissionMapping) /\ list_label m = x
                   /\ get ev (list_selector m) = VArr []) ->
        ~ In x (missingFields st)
        /\ (forall r, In r (populatedFields st) -> label r <> x)).
Proof.
  intros Hwt Hd Hx.
  destruct (classified_or_empty_list ev x Hwt Hx) as (st & E & H).
  exists st. split; [exact E |]. split; [exact H |].
  intros (m & Hm & <- & Hv).
  destruct (list_expansion ev m Hwt Hd Hm) as (st' & E' & Harr & _).
  rewrite E in E'. injection E' as <-.
  destruct (Harr [] Hv) as (before & after & Hpop & Hother & Hmiss).
  split; [exact Hmiss |].
  intros r Hr. apply Hother. rewrite Hpop in Hr. simpl in Hr.
  by apply in_app_iff in Hr.
Qed.

(** ** When validateSubmission throws *)

Lemma wellTyped_false_iff (ev : obj) :
  wellTyped ev = false
  <-> (exists m, In m (sm_list submissionMapping)
                 /\ truthy (get ev (list_selector m)) = true
                 /\ isArray (get ev (list_selector m)) = false)
      \/ (truthy (get ev "picture") = true
          /\ isString (get ev "picture") = false
          /\ isArray (get ev "picture") = false).
Proof.
  unfold wellTyped. rewrite andb_false_iff. split.
  - intros [H | H].
    + left. induction (sm_list submissionMapping) as [|m l IH]; [discriminate |].
      simpl in H. apply andb_false_iff in H as [H | H].
      * exists m. split; [by left |].
        destruct (truthy (get ev (list_selector m))); simpl in H; [done | discriminate].
      * destruct (IH H) as (m' & Hm' & Hv). exists m'. split; [by right | done].
    + right. simpl in H.
      destruct (truthy (get ev "picture")); simpl in H; [| discriminate].
      by apply orb_false_iff in H.
  - intros [(m & Hm & Ht & Ha) | (Ht & Hs & Ha)].
    + left. destruct (forallb _ (sm_list submissionMapping)) eqn:E; [| done].
      rewrite forallb_forall in E. specialize (E m Hm). simpl in E.
      by rewrite Ht, Ha in E.
    + right. simpl. by rewrite Ht, Hs, Ha.
Qed.

(** X6. [validateSubmission] ends with a TypeError exactly when a list
    mapping reads a truthy value that is no array, or the picture is
    truthy and neither a string nor an array; it then enqueues no
    assertion at all, and in every other case it returns normally. *)
Theorem validateSubmission_throws_iff (ev : obj) :
  (fieldsOf ev = Throw TypeError
   <-> (exists m, In m (sm_list submissionMapping)
                  /\ truthy (get ev (list_selector m)) = true
                  /\ isArray (get ev (list_selector m)) = false)
       \/ (truthy (get ev "picture") = true
           /\ isString (get ev "picture") = false
           /\ isArray (get ev "picture") = false))
  /\ (forall q, fieldsOf ev = Throw TypeError ->
                validateSubmission ev q = Throw TypeError)
  /\ (forall q, fieldsOf ev <> Throw TypeError ->
                exists q', validateSubmission ev q = Normal (tt, q')).
Proof.
  split; [| split].
  - rewrite <- wellTyped_false_iff. split.
    + intros E. destruct (wellTyped ev) eqn:Hwt; [| done].
      rewrite (fieldsOf_wellTyped ev Hwt) in E. discriminate.
    + apply fieldsOf_illTyped.
  - intros q E. by apply validateSubmission_throws.
  - intros q Hn. destruct (fieldsOf ev) as [st | []] eqn:E; [| done].
    eexists. by apply validateSubmission_commands.
Qed.

(** ** The queue validateSubmission leaves *)

Lemma flat_map_singleton {A B : Type} (f : A -> B) (l : list A) :
  flat_map (fun x => [f x]) l = map f l.
Proof. induction l as [|x l IH]; simpl; [done | by rewrite IH]. Qed.

Lemma populated_in_labels (ev : obj) (r : PopulatedField) :
  In r (allFields ev).1 -> In (label r) labelsOf.
Proof.
  intros Hr. unfold labelsOf. rewrite !in_app_iff.
  apply populated_origin in Hr
    as [(m & Hm & Hl & _) | [(m & Hm & Hl & _)
        | [(m & el & Hm & Hl & _) | [(Hl & _) | ->]]]].
  - left. rewrite Hl. by apply in_map.
  - right. left. rewrite Hl. by apply in_map.
  - do 2 right. left. rewrite Hl. by apply in_map.
  - do 3 right. left. done.
  - do 3 right. right. by left.
Qed.

(** X7. A call that returns leaves the queue it found untouched and
    appends one containment assertion per populated record followed by
    one emptiness assertion per missing label; every assertion looks up
    a label of the submission mapping. *)
Theorem validateSubmission_queue (ev : obj) (q q' : list chain) :
  validateSubmission ev q = Normal (tt, q') ->
  exists st,
    fieldsOf ev = Normal st
    /\ q' = (q ++ map containAssertion (populatedFields st)
               ++ map emptyAssertion (missingFields st))%list
    /\ (forall r, In r (populatedFields st) -> In (label r) labelsOf)
    /\ (forall x, In x (missingFields st) -> In x labelsOf).
Proof.
  intros Hq. destruct (wellTyped ev) eqn:Hwt.
  - pose proof (fieldsOf_wellTyped ev Hwt) as E.
    eexists. split; [exact E |].
    rewrite (validateSubmission_commands ev _ E q) in Hq.
    injection Hq as <-. split; [| split].
    + by rewrite !flat_map_singleton.
    + intros r Hr. by apply (populated_in_labels ev).
    + intros x Hx. apply list_elem_of_In.
      eapply sublist_subseteq; [apply (missing_sublist ev) | by apply list_elem_of_In].
  - rewrite (validateSubmission_throws ev _ (fieldsOf_illTyped ev Hwt)) in Hq.
    discriminate.
Qed.

(** ** The keys validateSubmission reads *)

Lemma flatContributions_ext_in {A : Type} (f g : A -> contribution) (l : list A) :
  (forall x, In x l -> f x = g x) -> flatContributions f l = flatContributions g l.
Proof.
  intros H. unfold flatContributions.
  induction l as [|x l IH]; [done |].
  pose proof (IH (fun y Hy => H y (or_intror Hy))) as IH'.
  injection IH' as E1 E2.
  simpl. by rewrite (H x (or_introl eq_refl)), E1, E2.
Qed.

Lemma forallb_ext_in {A : Type} (f g : A -> bool) (l : list A) :
  (forall x, In x l -> f x = g x) -> forallb f l = forallb g l.
Proof.
  intros H. induction l as [|x l IH]; [done |].
  simpl. rewrite (H x) by (by left). f_equal. apply IH.
  intros y Hy. apply H. by right.
Qed.

(** X8. [validateSubmission] reads its argument only at the selectors of
    the mapping and at the keys picture and dob: two arguments that
    agree there give the same arrays, the same exception and the same
    assertions, whatever else they hold. *)
Theorem validateSubmission_reads_only (ev1 ev2 : obj) :
  (forall k, In k keysRead -> get ev1 k = get ev2 k) ->
  fieldsOf ev1 = fieldsOf ev2
  /\ (forall q, validateSubmission ev1 q = validateSubmission ev2 q).
Proof.
  intros H. unfold keysRead in H.
  assert (forall m, In m (sm_direct submissionMapping) ->
                    get ev1 (direct_selector m) = get ev2 (direct_selector m)) as Hd.
  { intros m Hm. apply H. rewrite in_app_iff. left. by apply in_map. }
  assert (forall m sel, In m (sm_concat submissionMapping) ->
                        In sel (concat_selectors m) ->
                        get ev1 sel = get ev2 sel) as Hc.
  { intros m sel Hm Hsel. apply H. rewrite !in_app_iff. right. left.
    apply in_flat_map. by exists m. }
  assert (forall m, In m (sm_list submissionMapping) ->
                    get ev1 (list_selector m) = get ev2 (list_selector m)) as Hl.
  { intros m Hm. apply H. rewrite !in_app_iff. do 2 right. left. by apply in_map. }
  assert (get ev1 "picture" = get ev2 "picture") as Hp.
  { apply H. rewrite !in_app_iff. do 3 right. by left. }
  assert (get ev1 "dob" = get ev2 "dob") as Hb.
  { apply H. rewrite !in_app_iff. do 3 right. right. by left. }
  assert (allFields ev1 = allFields ev2) as Ha.
  { unfold allFields.
    rewrite (flatContributions_ext_in (directFields ev1) (directFields ev2)).
    2: { intros m Hm. unfold directFields. by rewrite (Hd m Hm). }
    rewrite (flatContributions_ext_in (concatFields ev1) (concatFields ev2)).
    2: { intros m Hm. unfold concatFields.
         rewrite !concatExpValue_concatSpec. unfold concatSpec.
         rewrite (map_ext_in (concatPart ev1 m) (concatPart ev2 m)); [done |].
         intros sel Hsel. unfold concatPart. by rewrite (Hc m sel Hm Hsel). }
    rewrite (flatContributions_ext_in (listFields ev1) (listFields ev2)).
    2: { intros m Hm. unfold listFields. by rewrite (Hl m Hm). }
    unfold pictureFields, dobField. by rewrite Hp, Hb. }
  assert (wellTyped ev1 = wellTyped ev2) as Hw.
  { unfold wellTyped. rewrite Hp. f_equal.
    apply forallb_ext_in. intros m Hm. by rewrite (Hl m Hm). }
  assert (fieldsOf ev1 = fieldsOf ev2) as E.
  { destruct (wellTyped ev1) eqn:Hwt; symmetry in Hw.
    - by rewrite (fieldsOf_wellTyped ev1 Hwt), (fieldsOf_wellTyped ev2 Hw), Ha.
    - by rewrite (fieldsOf_illTyped ev1 Hwt), (fieldsOf_illTyped ev2 Hw). }
  split; [exact E |]. intros q. unfold validateSubmission. by rewrite E.
Qed.

(** ** Expected values that assert nothing *)

Lemma format_nonempty (d : option Date) : format_DD_MMMM_YYYY d <> "".
Proof.
  destruct d as [d |]; [| discriminate].
  unfold format_DD_MMMM_YYYY. apply string_app_nonempty. discriminate.
Qed.

(** X9. A populated record whose expected value is falsy, for which
    the containment assertion holds of any cell, is either an element of
    a list value or the file name of a picture path that ends with a
    slash; the direct, concatenated and date-of-birth records always
    expect a truthy value. *)
Theorem falsy_expectation_origin (ev : obj) :
  wellTyped ev = true ->
  exists st,
    fieldsOf ev = Normal st
    /\ (forall r, In r (populatedFields st) -> truthy (expValue r) = false ->
          (exists m elems, In m (sm_list submissionMapping)
                           /\ label r = list_label m
                           /\ get ev (list_selector m) = VArr elems
                           /\ In (expValue r) elems)
          \/ (label r = sm_picture submissionMapping
              /\ exists s, get ev "picture" = VStr s /\ endsWithSlash s = true)).
Proof.
  intros Hwt. eexists. split; [by apply fieldsOf_wellTyped |].
  intros r Hr Hf.
  apply populated_origin in Hr
    as [(m & Hm & Hl & Hv & Ht) | [(m & Hm & Hl & Hv & Hne)
        | [(m & el & Hm & Hl & Hv & Hin) | [(Hl & Ht & Hn) | ->]]]].
  - rewrite Hv in Hf. congruence.
  - rewrite Hv in Hf. simpl in Hf.
    destruct (String.eqb_spec (concatExpValue ev m) ""); [done | discriminate].
  - left. by exists m, el.
  - right. split; [exact Hl |].
    destruct (get ev "picture") as [| |b|n|s|l|]; try discriminate.
    + injection Hn as Hn. rewrite <- Hn in Hf. simpl in Hf.
      exists s. split; [done |].
      destruct (String.eqb_spec (slice (lastIndexOf "/" s + 1) s) "") as [E |];
        [| discriminate].
      apply slice_empty_iff in E as [-> | E]; [discriminate | exact E].
    + injection Hn as Hn. by rewrite <- Hn in Hf.
  - simpl in Hf.
    destruct (String.eqb_spec
                (format_DD_MMMM_YYYY (dayjs (get ev "dob"))) "") as [E |];
      [| discriminate].
    by apply format_nonempty in E.
Qed.

(** ** The picture value as a file name *)

(** X10. For every picture string the value recorded holds no slash, is
    a suffix of the string, and is left as it is when it is given as a
    path again. *)
Theorem picture_value_is_file_name (s : string) :
  exists b p,
    pictureName (VStr s) = Normal (VStr b)
    /\ noSlash b = true
    /\ s = p +:+ b
    /\ pictureName (VStr b) = Normal (VStr b).
Proof.
  destruct (split_last_slash s) as [Hs | (p & t & -> & Ht)].
  - exists s, "". simpl. rewrite (slice_no_slash s Hs). done.
  - exists t, (p +:+ "/"). simpl.
    rewrite (slice_after_last_slash p t Ht), (slice_no_slash t Ht).
    repeat split; [done |]. by rewrite string_app_assoc.
Qed.

(** ** The helpers of fill, one by one *)

Lemma commands_emits (c : Cy unit) (w cs : list chain) :
  emitsQ c w -> commands c = Normal cs -> cs = w.
Proof.
  intros He Hc. rewrite (emitsQ_commands c w He) in Hc. by injection Hc as <-.
Qed.

Lemma arrayParam_cases (v : value) :
  (exists l, arrayParam v = Normal l /\ arrayOf v = l /\ isArrayParam v = true)
  \/ (arrayParam v = Throw TypeError /\ isArrayParam v = false).
Proof. destruct v; simpl; eauto. Qed.

Lemma selectSubjects_throws (v : value) (q : list chain) :
  isArrayParam v = false -> selectSubjects v q = Throw TypeError.
Proof.
  intros H. unfold selectSubjects. by apply throws_liftC, arrayParam_throws.
Qed.

Lemma selectHobbies_throws (v : value) (q : list chain) :
  isArrayParam v = false -> selectHobbies v q = Throw TypeError.
Proof.
  intros H. unfold selectHobbies. by apply throws_liftC, arrayParam_throws.
Qed.

(** X11. For every list of hobbies the queue receives one chain per
    hobby, in list order: the element found by its text, narrowed to the
    sibling checkbox, clicked with force; each chain is on the hobbies
    control. *)
Theorem selectHobbies_clicks (hobbies : list value) :
  (forall q, selectHobbies (VArr hobbies) q
             = Normal (tt, (q ++ map (fun hobby =>
                                        [Contains hobby;
                                         Siblings (VStr (selectorOf "hobbies"));
                                         Click true]) hobbies)%list))
  /\ (forall cs c, commands (selectHobbies (VArr hobbies)) = Normal cs ->
                   In c cs -> onControl Hobbies c = true)
  /\ (forall cs, commands (selectHobbies (VArr hobbies)) = Normal cs ->
                 length cs = length hobbies).
Proof.
  pose proof (selectHobbies_emits (VArr hobbies) eq_refl) as He.
  assert (flat_map hobbyClick hobbies
          = map (fun hobby => [Contains hobby;
                               Siblings (VStr (selectorOf "hobbies"));
                               Click true]) hobbies) as E
    by apply (flat_map_singleton _ hobbies).
  simpl in He. rewrite E in He. split; [exact He | split].
  - intros cs c Hc Hin. rewrite (commands_emits _ _ _ He Hc) in Hin.
    apply in_map_iff in Hin as (h & <- & _). reflexivity.
  - intros cs Hc. rewrite (commands_emits _ _ _ He Hc). apply length_map.
Qed.

(** X12. The array parameters: left out, or given an empty array,
    [selectSubjects] and [selectHobbies] leave the queue as it is; given
    any other value that is no array, also a falsy one such as null or
    the empty string, they throw a TypeError. *)
Theorem array_parameter_edges :
  (forall q, selectSubjects VUndefined q = Normal (tt, q)
             /\ selectHobbies VUndefined q = Normal (tt, q)
             /\ selectSubjects (VArr []) q = Normal (tt, q)
             /\ selectHobbies (VArr []) q = Normal (tt, q))
  /\ (forall v q, isArrayParam v = false ->
                  selectSubjects v q = Throw TypeError
                  /\ selectHobbies v q = Throw TypeError)
  /\ (forall q, selectSubjects VNull q = Throw TypeError
                /\ selectHobbies (VStr "") q = Throw TypeError).
Proof.
  split; [| split].
  - intros q.
    pose proof (selectSubjects_emits VUndefined eq_refl q) as H1.
    pose proof (selectHobbies_emits VUndefined eq_refl q) as H2.
    pose proof (selectSubjects_emits (VArr []) eq_refl q) as H3.
    pose proof (selectHobbies_emits (VArr []) eq_refl q) as H4.
    simpl in *. rewrite app_nil_r in *. done.
  - intros v q H. split; [by apply selectSubjects_throws | by apply selectHobbies_throws].
  - intros q. split; [by apply selectSubjects_throws | by apply selectHobbies_throws].
Qed.

(** X13. Each helper acts on its own control and on no other: the
    chains of [selectGender] are on the gender radio, those of
    [selectSubjects] on the subjects field and its dropdown, those of
    [selectHobbies] on the hobby checkboxes, those of [uploadPicture] on
    the upload input and those of [selectLocation] on the state and city
    fields, whatever their arguments. *)
Theorem helpers_stay_on_their_control (k : control) :
  validControl k = true ->
  (forall gender cs c, commands (selectGender gender) = Normal cs -> In c cs ->
                       onControl k c = true -> k = Gender)
  /\ (forall subjects cs c, commands (selectSubjects subjects) = Normal cs ->
                            In c cs -> onControl k c = true -> k = Subjects)
  /\ (forall hobbies cs c, commands (selectHobbies hobbies) = Normal cs ->
                           In c cs -> onControl k c = true -> k = Hobbies)
  /\ (forall file cs c, commands (uploadPicture file) = Normal cs -> In c cs ->
                        onControl k c = true -> k = Picture)
  /\ (forall state city cs c, commands (selectLocation state city) = Normal cs ->
                              In c cs -> onControl k c = true ->
                              k = State \/ k = City)
  /\ (forall gender cs c, commands (selectGender gender) = Normal cs -> In c cs ->
                          onControl Gender c = true)
  /\ (forall subjects cs c, commands (selectSubjects subjects) = Normal cs ->
                            In c cs -> onControl Subjects c = true)
  /\ (forall file cs c, commands (uploadPicture file) = Normal cs -> In c cs ->
                        onControl Picture c = true)
  /\ (forall state city cs c, commands (selectLocation state city) = Normal cs ->
                              In c cs ->
                              onControl State c = true \/ onControl City c = true).
Proof.
  clear defaultValues fieldTypes_text submissionMapping now parseDate.
  intros Hv.
  assert (forall (P : Prop) (part : list chain) c,
            (P \/ Forall (fun c => onControl k c = false) part) ->
            In c part -> onControl k c = true -> P) as Huse.
  { intros P part c [HP | HF] Hin Hc; [exact HP |].
    rewrite Forall_forall in HF. apply list_elem_of_In, HF in Hin. congruence. }
  split; [| split; [| split; [| split; [| split; [| split; [| split; [| split]]]]]]].
  - intros g cs c Hc.
    rewrite (commands_emits _ _ _ (selectGender_emits g) Hc).
    apply Huse. destruct k; try (by left); right; by apply gender_part.
  - intros v cs c Hc.
    destruct (arrayParam_cases v) as [(l & _ & Hl & Ha) | (_ & Ha)].
    + rewrite (commands_emits _ _ _ (selectSubjects_emits v Ha) Hc).
      apply Huse. destruct k; try (by left); right; by apply subjects_part.
    + unfold commands in Hc. by rewrite (selectSubjects_throws v [] Ha) in Hc.
  - intros v cs c Hc.
    destruct (arrayParam_cases v) as [(l & _ & Hl & Ha) | (_ & Ha)].
    + rewrite (commands_emits _ _ _ (selectHobbies_emits v Ha) Hc).
      apply Huse. destruct k; try (by left); right; by apply hobbies_part.
    + unfold commands in Hc. by rewrite (selectHobbies_throws v [] Ha) in Hc.
  - intros f cs c Hc.
    rewrite (commands_emits _ _ _ (uploadPicture_emits f) Hc).
    apply Huse. destruct k; try (by left); right; by apply picture_part.
  - intros s ci cs c Hc.
    rewrite (commands_emits _ _ _ (selectLocation_emits s ci) Hc).
    apply Huse. destruct k; try (left; tauto); right; by apply location_part.
  - intros g cs c Hc.
    rewrite (commands_emits _ _ _ (selectGender_emits g) Hc).
    unfold genderCommands. destruct (truthy g); [| done].
    intros [<- | []]. reflexivity.
  - intros v cs c Hc.
    destruct (arrayParam_cases v) as [(l & _ & Hl & Ha) | (_ & Ha)].
    + rewrite (commands_emits _ _ _ (selectSubjects_emits v Ha) Hc).
      rewrite in_flat_map. intros (s & _ & [<- | [<- | []]]); reflexivity.
    + unfold commands in Hc. by rewrite (selectSubjects_throws v [] Ha) in Hc.
  - intros f cs c Hc.
    rewrite (commands_emits _ _ _ (uploadPicture_emits f) Hc).
    unfold pictureCommands. destruct (truthy f); [| done].
    intros [<- | []]. reflexivity.
  - intros s ci cs c Hc.
    rewrite (commands_emits _ _ _ (selectLocation_emits s ci) Hc).
    unfold locationCommands. destruct (truthy s); [| done].
    destruct (truthy ci).
    + intros [<- | [<- | []]]; [by left | by right].
    + intros [<- | []]. by left.
Qed.

(** ** fill as a whole *)

Lemma bind_ext_l {S A B : Type} (c1 c2 : M S A) (k : A -> M S B) (s : S) :
  c1 s = c2 s -> bind c1 k s = bind c2 k s.
Proof. intros E. unfold bind. by rewrite E. Qed.

Lemma forEach_ext_in {S A : Type} (f g : A -> M S unit) (l : list A) :
  (forall x, In x l -> forall s, f x s = g x s) ->
  forall s, forEach l f s = forEach l g s.
Proof.
  intros H. induction l as [|x l IH]; intros s; [done |].
  simpl. unfold bind. rewrite (H x (or_introl eq_refl) s).
  destruct (g x s) as [[[] s'] | e]; [| done].
  apply IH. intros y Hy. apply H. by right.
Qed.

Lemma textLoop_emits (fv : obj) :
  emitsQ (forEach fieldTypes_text (fun field =>
            let value := get fv field in
            enqueue [Wrap value; Then] ;;;
            when (truthy value)
              (enqueue [Get (get form field); TypeText value])))
         (flat_map (textCommands fv) fieldTypes_text).
Proof.
  apply emitsQ_forEach. intros field. unfold textCommands.
  apply (emitsQ_bind _ _ [_]); [apply emitsQ_enqueue |].
  apply emitsQ_when, emitsQ_enqueue.
Qed.

(** A subjects or hobbies value that is neither left out nor an array
    ends [fill] with a TypeError, from any queue. *)
Lemma fill_throws (formValues : option obj) (q : list chain) :
  let fv := default defaultValues formValues in
  isArrayParam (get fv "subjects") = false
  \/ isArrayParam (get fv "hobbies") = false ->
  fill formValues q = Throw TypeError.
Proof.
  intros fv H. unfold fill. fold fv.
  unfold bind at 1. rewrite (textLoop_emits fv).
  unfold bind at 1. rewrite (emitsQ_when _ _ _ (emitsQ_enqueue _)).
  unfold bind at 1. rewrite selectGender_emits.
  unfold bind at 1.
  destruct (isArrayParam (get fv "subjects")) eqn:Hs.
  - destruct H as [H | H]; [discriminate |].
    rewrite (selectSubjects_emits _ Hs).
    unfold bind at 1. by rewrite selectHobbies_throws.
  - by rewrite selectSubjects_throws.
Qed.

(** X14. On values whose subjects and hobbies are arrays or left out,
    the queue of [fill] is the wrap and typing chains of the text fields
    in list order, then the date of birth, then the queues of
    [selectGender], [selectSubjects], [selectHobbies], [uploadPicture]
    and [selectLocation], in that order. *)
Theorem fill_runs_helpers_in_order (formValues : option obj) :
  let fv := default defaultValues formValues in
  isArrayParam (get fv "subjects") = true ->
  isArrayParam (get fv "hobbies") = true ->
  exists g s h p l,
    commands (selectGender (get fv "gender")) = Normal g
    /\ commands (selectSubjects (get fv "subjects")) = Normal s
    /\ commands (selectHobbies (get fv "hobbies")) = Normal h
    /\ commands (uploadPicture (get fv "picture")) = Normal p
    /\ commands (selectLocation (get fv "state") (get fv "city")) = Normal l
    /\ commands (fill formValues)
       = Normal (flat_map (fun field =>
                             [Wrap (get fv field); Then]
                             :: (if truthy (get fv field)
                                 then [ [Get (get form field);
                                         TypeText (get fv field)] ]
                                 else [])) fieldTypes_text
                 ++ (if truthy (get fv "dob")
                     then [ [Get (VStr "#dateOfBirthInput");
                             SelectDate (get fv "dob")] ]
                     else [])
                 ++ g ++ s ++ h ++ p ++ l)%list.
Proof.
  intros fv Hs Hh.
  exists (genderCommands (get fv "gender")),
    (flat_map subjectCycle (arrayOf (get fv "subjects"))),
    (flat_map hobbyClick (arrayOf (get fv "hobbies"))),
    (pictureCommands (get fv "picture")),
    (locationCommands (get fv "state") (get fv "city")).
  split; [apply emitsQ_commands, selectGender_emits |].
  split; [by apply emitsQ_commands, selectSubjects_emits |].
  split; [by apply emitsQ_commands, selectHobbies_emits |].
  split; [apply emitsQ_commands, uploadPicture_emits |].
  split; [apply emitsQ_commands, selectLocation_emits |].
  apply emitsQ_commands. by apply fill_emits.
Qed.

(** X15. [fill] throws a TypeError exactly when the subjects or the
    hobbies value is neither left out nor an array, whatever the other
    values and the queue; otherwise it returns normally and keeps the
    queue it found as a prefix. *)
Theorem fill_throws_iff (formValues : option obj) (q : list chain) :
  let fv := default defaultValues formValues in
  (fill formValues q = Throw TypeError
   <-> isArrayParam (get fv "subjects") = false
       \/ isArrayParam (get fv "hobbies") = false)
  /\ (fill formValues q <> Throw TypeError ->
      exists new, fill formValues q = Normal (tt, (q ++ new)%list)).
Proof.
  intros fv.
  assert (isArrayParam (get fv "subjects") = true ->
          isArrayParam (get fv "hobbies") = true ->
          fill formValues q = Normal (tt, (q ++ fillCommands fv)%list)) as Hok.
  { intros Hs Hh. by apply fill_emits. }
  split.
  - split; [| apply fill_throws].
    intros E.
    destruct (isArrayParam (get fv "subjects")) eqn:Hs; [| by left].
    destruct (isArrayParam (get fv "hobbies")) eqn:Hh; [| by right].
    rewrite Hok in E by done. discriminate.
  - intros Hn.
    destruct (isArrayParam (get fv "subjects")) eqn:Hs.
    + destruct (isArrayParam (get fv "hobbies")) eqn:Hh.
      * eexists. by apply Hok.
      * destruct Hn. apply fill_throws. by right.
    + destruct Hn. apply fill_throws. by left.
Qed.

(** X16. When every text field, the date of birth, the gender, the
    picture and the state are falsy and subjects and hobbies are left
    out or empty, [fill] enqueues one wrap chain per text field and
    nothing else: no element of the page is queried. *)
Theorem fill_nothing_to_enter (formValues : option obj) :
  let fv := default defaultValues formValues in
  (forall field, In field fieldTypes_text -> truthy (get fv field) = false) ->
  truthy (get fv "dob") = false ->
  truthy (get fv "gender") = false ->
  truthy (get fv "picture") = false ->
  truthy (get fv "state") = false ->
  arrayParam (get fv "subjects") = Normal [] ->
  arrayParam (get fv "hobbies") = Normal [] ->
  commands (fill formValues)
  = Normal (map (fun field => [Wrap (get fv field); Then]) fieldTypes_text).
Proof.
  intros fv Ht Hd Hg Hp Hst Hs Hh.
  assert (isArrayParam (get fv "subjects") = true
          /\ arrayOf (get fv "subjects") = []) as (Hs1 & Hs2).
  { destruct (arrayParam_cases (get fv "subjects")) as [(l & E & Hl & Ha) | (E & _)];
      [| congruence]. split; [done | congruence]. }
  assert (isArrayParam (get fv "hobbies") = true
          /\ arrayOf (get fv "hobbies") = []) as (Hh1 & Hh2).
  { destruct (arrayParam_cases (get fv "hobbies")) as [(l & E & Hl & Ha) | (E & _)];
      [| congruence]. split; [done | congruence]. }
  rewrite (emitsQ_commands _ _ (fill_emits formValues Hs1 Hh1)). fold fv.
  unfold fillCommands, dobCommands, genderCommands, pictureCommands,
    locationCommands.
  rewrite Hd, Hg, Hp, Hst, Hs2, Hh2. simpl. rewrite app_nil_r. f_equal.
  clear -Ht. induction fieldTypes_text as [|f l IH]; [done |].
  simpl. unfold textCommands at 1. cbv zeta.
  rewrite (Ht f (or_introl eq_refl)). simpl. f_equal.
  apply IH. intros y Hy. apply Ht. by right.
Qed.

(** X17. [fill] reads its argument only at the text fields and at the
    keys dob, gender, subjects, hobbies, picture, state and city: two
    arguments that agree there give the same result from every queue. *)
Theorem fill_reads_only (fv1 fv2 : obj) :
  (forall k, In k keysOfFill -> get fv1 k = get fv2 k) ->
  forall q, fill (Some fv1) q = fill (Some fv2) q.
Proof.
  intros H q. unfold keysOfFill in H.
  assert (forall k, In k ["dob"; "gender"; "subjects"; "hobbies"; "picture";
                          "state"; "city"] -> get fv1 k = get fv2 k) as Hk.
  { intros k Hk. apply H. rewrite in_app_iff. by right. }
  unfold fill. cbv zeta. cbn [default from_option]. unfold id.
  rewrite (Hk "dob"), (Hk "gender"), (Hk "subjects"), (Hk "hobbies"),
    (Hk "picture"), (Hk "state"), (Hk "city") by (simpl; tauto).
  apply bind_ext_l. apply forEach_ext_in.
  intros field Hf s. cbv zeta. rewrite (H field); [done |].
  rewrite in_app_iff. by left.
Qed.

(** ** The records of a list mapping, counted *)

Lemma filter_all {A : Type} (P : A -> bool) (l : list A) :
  Forall (fun x => P x = true) l -> List.filter P l = l.
Proof.
  induction 1 as [|x l Hx _ IH]; simpl; [done | by rewrite Hx, IH].
Qed.

(** X18. A list mapping whose value is an array has among the populated
    records exactly one record per element of the array under its label,
    in the order of the array, so none for an empty array, and its label
    is not missing. *)
Theorem list_loop_records (ev : obj) (m : ListMapping) (elems : list value) :
  wellTyped ev = true ->
  distinct labelsOf = true ->
  In m (sm_list submissionMapping) ->
  get ev (list_selector m) = VArr elems ->
  exists st,
    fieldsOf ev = Normal st
    /\ List.filter (fun r => String.eqb (label r) (list_label m)) (populatedFields st)
       = map (fun v => {| label := list_label m; expValue := v |}) elems
    /\ ~ In (list_label m) (missingFields st).
Proof.
  intros Hwt Hd Hm Hv.
  destruct (list_expansion ev m Hwt Hd Hm) as (st & E & Harr & _).
  destruct (Harr elems Hv) as (before & after & Hpop & Hother & Hmiss).
  exists st. split; [exact E |]. split; [| exact Hmiss].
  rewrite Hpop, !List.filter_app.
  rewrite (filter_none _ before), (filter_none _ after), (filter_all _ (map _ elems)).
  - by rewrite app_nil_r.
  - apply Forall_forall. intros r Hr%list_elem_of_In.
    apply in_map_iff in Hr as (v & <- & _). apply String.eqb_refl.
  - apply Forall_forall. intros r Hr%list_elem_of_In.
    apply String.eqb_neq, Hother. by right.
  - apply Forall_forall. intros r Hr%list_elem_of_In.
    apply String.eqb_neq, Hother. by left.
Qed.

(** ** fill and validateSubmission on a text field *)

(** X19. For a text field that a direct mapping reads, [fill] and
    [validateSubmission] agree on the same values: the value [fill]
    types into the field is the value whose presence in the cell
    [validateSubmission] asserts, and [fill] leaves the field alone
    exactly when the label is expected to be missing. *)
Theorem fill_and_validate_agree (fv : obj) (m : DirectMapping) :
  forallb isTextKey fieldTypes_text = true ->
  In (direct_selector m) fieldTypes_text ->
  In m (sm_direct submissionMapping) ->
  distinct labelsOf = true ->
  wellTyped fv = true ->
  isArrayParam (get fv "subjects") = true ->
  isArrayParam (get fv "hobbies") = true ->
  exists cmds st,
    commands (fill (Some fv)) = Normal cmds
    /\ fieldsOf fv = Normal st
    /\ (forall v,
          In [Get (VStr (selectorOf (direct_selector m))); TypeText v] cmds
          <-> In {| label := direct_label m; expValue := v |} (populatedFields st))
    /\ ((forall c, In c cmds -> onControl (TextInput (direct_selector m)) c = false)
        <-> In (direct_label m) (missingFields st)).
Proof.
  intros Hf Hin Hm Hd Hwt Hs Hh.
  set (f := direct_selector m) in *.
  assert (isTextKey f = true) as Hk by (rewrite forallb_forall in Hf; by apply Hf).
  destruct (labels_apart Hd) as (Hdc & Hdl & Hdp & _).
  destruct (distinct_labels Hd) as ((HD & _) & _).
  exists (fillCommands fv), (extend emptyLocals (allFields fv)).
  split; [apply emitsQ_commands; by apply (fill_emits (Some fv)) |].
  split; [by apply fieldsOf_wellTyped |].
  assert (List.filter (onControl (TextInput f)) (fillCommands fv)
          = if truthy (get fv f)
            then repeat [Get (VStr (selectorOf f)); TypeText (get fv f)]
                        (count_occ string_dec fieldTypes_text f)
            else []) as Hfilter.
  { unfold fillCommands. rewrite !List.filter_app.
    rewrite (text_filter fv _ f Hf Hk).
    rewrite (filter_none _ (dobCommands fv)) by (by apply dob_part).
    rewrite (filter_none _ (genderCommands _)) by (by apply gender_part).
    rewrite (filter_none _ (flat_map subjectCycle _)) by (by apply subjects_part).
    rewrite (filter_none _ (flat_map hobbyClick _)) by (by apply hobbies_part).
    rewrite (filter_none _ (pictureCommands _)) by (by apply picture_part).
    rewrite (filter_none _ (locationCommands _ _)) by (by apply location_part).
    by rewrite !app_nil_r. }
  assert (0 < count_occ string_dec fieldTypes_text f)%nat as Hcount
    by (by apply count_occ_In).
  assert (forall r, In r (allFields fv).1 -> label r = direct_label m ->
                    expValue r = get fv f /\ truthy (get fv f) = true) as Hpop.
  { intros r Hr E.
    apply populated_origin in Hr
      as [(m0 & Hm0 & Hl & Hv & Ht) | [(m0 & Hm0 & Hl & _)
          | [(m0 & el & Hm0 & Hl & _) | [(Hl & _) | ->]]]].
    - assert (m0 = m) as ->
        by (apply (distinct_map_inj direct_label _ _ _ HD Hm0 Hm); congruence).
      done.
    - destruct (Hdc m m0 Hm Hm0). congruence.
    - destruct (Hdl m m0 Hm Hm0). congruence.
    - destruct (Hdp m Hm) as (Hn & _). congruence.
    - destruct (Hdp m Hm) as (_ & Hn). simpl in E. congruence. }
  assert (truthy (get fv f) = true ->
          In {| label := direct_label m; expValue := get fv f |} (allFields fv).1)
    as Hrec.
  { intros Ht. apply allFields_populated. left. simpl. apply in_flat_map.
    exists m. split; [done |]. rewrite (directFields_truthy fv m Ht). by left. }
  split.
  - intros v. split.
    + intros Hc.
      assert (In [Get (VStr (selectorOf f)); TypeText v]
                 (List.filter (onControl (TextInput f)) (fillCommands fv))) as Hc'.
      { apply filter_In. split; [exact Hc |]. simpl. apply String.eqb_refl. }
      rewrite Hfilter in Hc'. destruct (truthy (get fv f)) eqn:Ht; [| done].
      apply repeat_spec in Hc'. injection Hc' as ->. by apply Hrec.
    + intros Hr. destruct (Hpop _ Hr eq_refl) as (Hv & Ht). simpl in Hv. subst v.
      assert (In [Get (VStr (selectorOf f)); TypeText (get fv f)]
                 (List.filter (onControl (TextInput f)) (fillCommands fv))) as Hc'.
      { rewrite Hfilter, Ht.
        destruct (count_occ string_dec fieldTypes_text f); [lia | by left]. }
      by apply filter_In in Hc' as (Hc' & _).
  - split.
    + intros Hnone. destruct (truthy (get fv f)) eqn:Ht.
      * exfalso.
        assert (In [Get (VStr (selectorOf f)); TypeText (get fv f)]
                   (List.filter (onControl (TextInput f)) (fillCommands fv))) as Hc'.
        { rewrite Hfilter.
          destruct (count_occ string_dec fieldTypes_text f); [lia | by left]. }
        apply filter_In in Hc' as (Hc' & Hon). rewrite (Hnone _ Hc') in Hon. done.
      * apply allFields_missing. left. simpl. apply in_flat_map.
        exists m. split; [done |]. rewrite (directFields_falsy fv m Ht). by left.
    + intros Hmiss c Hc.
      destruct (onControl (TextInput f) c) eqn:Hon; [| done]. exfalso.
      assert (In c (List.filter (onControl (TextInput f)) (fillCommands fv))) as Hc'
        by (apply filter_In; by split).
      rewrite Hfilter in Hc'. destruct (truthy (get fv f)) eqn:Ht; [| done].
      apply missing_origin in Hmiss
        as [(m0 & Hm0 & Hl & Hfalse) | [(m0 & Hm0 & Hl & _)
            | [(m0 & Hm0 & Hl & _) | (Hl & _)]]].
      * assert (m0 = m) as ->
          by (apply (distinct_map_inj direct_label _ _ _ HD Hm0 Hm); congruence).
        fold f in Hfalse. congruence.
      * destruct (Hdc m m0 Hm Hm0). congruence.
      * destruct (Hdl m m0 Hm Hm0). congruence.
      * destruct (Hdp m Hm) as (Hn & _). congruence.
Qed.

End PracticeForm.

(** * The page object on concrete inputs *)

Example toString_nested :
  toString (VArr [VStr "a"; VNull; VNum (-12); VArr [VBool true; VUndefined]])
  = "a,,-12,true,".
Proof. reflexivity. Qed.

Example form_gender_selector :
  commands (selectGender (VStr "Female"))
  = Normal [ [Get (VStr ("[type=" +:+ dq +:+ "radio" +:+ dq +:+ "][value="
                          +:+ dq +:+ "Female" +:+ dq +:+ "]"));
              Click true] ].
Proof. reflexivity. Qed.

(** The end-to-end scenario of the specification: first name, last name,
    gender and one hobby are populated, every other label is missing but
    the date of birth, which shows the current date. *)
Example jane_fields :
  fieldsOf sampleMapping sampleToday noParse janeValues
  = Normal
      {| populatedFields :=
           [ {| label := "Gender"; expValue := VStr "Female" |};
             {| label := "Student Name"; expValue := VStr "Jane Doe" |};
             {| label := "Hobbies"; expValue := VStr "Sports" |};
             {| label := "Date of Birth"; expValue := VStr "05 March,2024" |} ];
         missingFields :=
           [ "Student Email"; "Mobile"; "Address"; "State and City";
             "Subjects"; "Picture" ] |}.
Proof. vm_compute. reflexivity. Qed.

(** C1. With an empty list of subjects the list loop records the label
    neither as populated nor as missing, where a field left out, as the
    hobbies here, is recorded as missing. *)
Theorem empty_list_is_unclassified :
  fieldsOf sampleMapping sampleToday noParse noSubjectsValues
  = Normal
      {| populatedFields :=
           [ {| label := "Date of Birth"; expValue := VStr "05 March,2024" |} ];
         missingFields :=
           [ "Student Email"; "Gender"; "Mobile"; "Address"; "Student Name";
             "State and City"; "Hobbies"; "Picture" ] |}.
Proof. vm_compute. reflexivity. Qed.

(** C10, the claim as stated fails: the non-empty path images/ gives a
    populated picture record whose value is the empty string. *)
Lemma picture_trailing_slash_empty :
  fieldsOf sampleMapping sampleToday noParse folderValues
  = Normal
      {| populatedFields :=
           [ {| label := "Picture"; expValue := VStr "" |};
             {| label := "Date of Birth"; expValue := VStr "05 March,2024" |} ];
         missingFields :=
           [ "Student Email"; "Gender"; "Mobile"; "Address"; "Student Name";
             "State and City"; "Subjects"; "Hobbies" ] |}.
Proof. vm_compute. reflexivity. Qed.

(** C8, the claim as stated fails: with the first name Jane and the
    subjects null, a falsy value, [fill] throws at the subjects loop and
    no command runs, so the truthy first name is never typed. *)
Lemma fill_null_subjects_types_nothing :
  truthy (get nullSubjectsValues "firstName") = true
  /\ truthy (get nullSubjectsValues "subjects") = false
  /\ commands (fill noValues textKeys (Some nullSubjectsValues)) = Throw TypeError.
Proof. repeat split; vm_compute; reflexivity. Qed.

(** ** The theorems at concrete inputs *)

Lemma concat_policy_witness :
  exists st,
    fieldsOf sampleMapping sampleToday noParse janeValues = Normal st
    /\ In {| label := "Student Name"; expValue := VStr "Jane Doe" |}
          (populatedFields st).
Proof.
  destruct (concat_policy sampleMapping sampleToday noParse) as (_ & H & _).
  apply (H janeValues studentName).
  - reflexivity.
  - left. reflexivity.
  - vm_compute. discriminate.
Defined.

Lemma concat_all_empty_is_missing_witness :
  exists st,
    fieldsOf sampleMapping sampleToday noParse emptyLocation = Normal st
    /\ In "State and City" (missingFields st)
    /\ (forall r, In r (populatedFields st) -> label r <> "State and City").
Proof.
  apply (concat_all_empty_is_missing sampleMapping sampleToday noParse
           emptyLocation stateAndCity).
  - reflexivity.
  - reflexivity.
  - right. left. reflexivity.
  - intros sel [<- | [<- | []]]; reflexivity.
Defined.

Lemma dob_always_populated_witness :
  exists st before,
    fieldsOf sampleMapping sampleToday noParse noValues = Normal st
    /\ populatedFields st
       = (before ++ [ {| label := "Date of Birth";
                         expValue := VStr "05 March,2024" |} ])%list
    /\ ~ In "Date of Birth" (missingFields st).
Proof.
  destruct (dob_always_populated sampleMapping sampleToday noParse noValues)
    as (st & before & value & H1 & H2 & _ & H4 & H5 & _).
  - reflexivity.
  - reflexivity.
  - exists st, before. rewrite (H5 eq_refl) in H2. auto.
Defined.

Lemma picture_basename_witness :
  exists st,
    fieldsOf sampleMapping sampleToday noParse photoValues = Normal st
    /\ In {| label := "Picture"; expValue := VStr "photo.png" |} (populatedFields st)
    /\ ~ In "Picture" (missingFields st).
Proof.
  destruct (picture_basename sampleMapping sampleToday noParse photoValues)
    as (st & H1 & H2 & _).
  - reflexivity.
  - reflexivity.
  - exists st. split; [exact H1 |].
    destruct (H2 "/fixtures/images/photo.png") as (Hin & _ & Hmiss).
    + reflexivity.
    + discriminate.
    + split; [exact Hin | exact Hmiss].
Defined.

Lemma picture_name_total_witness :
  exists st,
    fieldsOf sampleMapping sampleToday noParse plainPhotoValues = Normal st
    /\ In {| label := "Picture"; expValue := VStr "photo.png" |} (populatedFields st).
Proof.
  destruct (picture_name_total sampleMapping sampleToday noParse plainPhotoValues
              "photo.png")
    as (st & b & H1 & _ & H3 & H4 & _).
  - reflexivity.
  - reflexivity.
  - discriminate.
  - exists st. split; [exact H1 |]. rewrite <- (H4 eq_refl). exact H3.
Defined.

Lemma validateSubmission_deterministic_witness :
  fieldsOf sampleMapping sampleToday noParse noValues
  = fieldsOf sampleMapping sampleToday noParse undefinedEmailValues.
Proof.
  apply (validateSubmission_deterministic sampleMapping sampleToday noParse
           noValues undefinedEmailValues).
  intros k. unfold get, noValues, undefinedEmailValues. rewrite lookup_empty.
  destruct (decide (k = "email")) as [-> | Hne].
  - by rewrite lookup_singleton_eq.
  - by rewrite lookup_singleton_ne.
Defined.

Lemma selectLocation_gating_witness :
  selectLocation (VStr "NCR") VUndefined []
  = Normal (tt, [ [Get (VStr "#state"); TypeText (VStr "NCR{enter}")] ]).
Proof.
  destruct (selectLocation_gating (VStr "NCR") VUndefined) as (_ & H & _).
  apply (H "NCR"); [reflexivity | discriminate | reflexivity].
Defined.

Lemma selectSubjects_cycles_witness :
  flat_map subjectCycle [VStr "Maths"; VStr "Physics"] !! 2%nat
  = Some [Get (VStr "#subjectsContainer"); TypeText (VStr "Physics")].
Proof.
  destruct (selectSubjects_cycles [VStr "Maths"; VStr "Physics"])
    as (_ & _ & H & _).
  destruct (H 1%nat (VStr "Physics")) as (H2 & _); [reflexivity | exact H2].
Defined.

Lemma fill_skips_absent_witness :
  exists cmds,
    commands (fill noValues textKeys (Some janeValues)) = Normal cmds
    /\ List.filter (onControl (TextInput "firstName")) cmds
       = [ [Get (VStr "#firstName"); TypeText (VStr "Jane")] ]
    /\ List.filter (onControl (TextInput "email")) cmds = []
    /\ (forall c, In c cmds -> onControl Picture c = false).
Proof.
  destruct (fill_skips_absent noValues textKeys (Some janeValues))
    as (cmds & H1 & H2 & _ & H4 & _).
  - reflexivity.
  - reflexivity.
  - reflexivity.
  - exists cmds. split; [exact H1 |]. split; [| split].
    + rewrite (H2 "firstName"); [reflexivity | left; reflexivity].
    + rewrite (H2 "email"); [reflexivity | right; right; left; reflexivity].
    + apply H4. reflexivity.
Defined.

(** ** The further properties at concrete inputs *)

Lemma direct_classification_witness :
  exists st,
    fieldsOf sampleMapping sampleToday noParse janeValues = Normal st
    /\ In {| label := "Gender"; expValue := VStr "Female" |} (populatedFields st)
    /\ ~ In "Gender" (missingFields st).
Proof.
  destruct (direct_classification sampleMapping sampleToday noParse janeValues
              {| direct_selector := "gender"; direct_label := "Gender" |})
    as (st & H1 & H2 & _).
  - reflexivity.
  - reflexivity.
  - right. left. reflexivity.
  - exists st. split; [exact H1 |].
    destruct H2 as (Hin & _ & Hmiss); [reflexivity |].
    split; [exact Hin | exact Hmiss].
Defined.

Lemma concat_classification_witness :
  exists st,
    fieldsOf sampleMapping sampleToday noParse blankHobbiesValues = Normal st
    /\ In "Student Name" (missingFields st).
Proof.
  destruct (concat_classification sampleMapping sampleToday noParse
              blankHobbiesValues studentName) as (st & H1 & H2 & _).
  - reflexivity.
  - reflexivity.
  - left. reflexivity.
  - exists st. split; [exact H1 |]. apply H2.
    intros sel [<- | [<- | []]]; reflexivity.
Defined.

Lemma missing_in_mapping_order_witness :
  exists st,
    fieldsOf sampleMapping sampleToday noParse janeValues = Normal st
    /\ NoDup (missingFields st).
Proof.
  destruct (missing_in_mapping_order sampleMapping sampleToday noParse janeValues)
    as (st & H1 & _ & H3).
  - reflexivity.
  - exists st. split; [exact H1 |]. apply H3. reflexivity.
Defined.

Lemma never_populated_and_missing_witness :
  exists st,
    fieldsOf sampleMapping sampleToday noParse janeValues = Normal st
    /\ (forall r, In r (populatedFields st) -> ~ In (label r) (missingFields st)).
Proof.
  apply (never_populated_and_missing sampleMapping sampleToday noParse janeValues);
    reflexivity.
Defined.

Lemma every_label_classified_witness :
  exists st,
    fieldsOf sampleMapping sampleToday noParse noSubjectsValues = Normal st
    /\ ~ In "Subjects" (missingFields st)
    /\ (forall r, In r (populatedFields st) -> label r <> "Subjects").
Proof.
  destruct (every_label_classified sampleMapping sampleToday noParse
              noSubjectsValues "Subjects") as (st & E & _ & H).
  - reflexivity.
  - reflexivity.
  - vm_compute. tauto.
  - exists st. split; [exact E |]. apply H.
    exists {| list_selector := "subjects"; list_label := "Subjects" |}.
    split; [left; reflexivity | split; reflexivity].
Defined.

Lemma validateSubmission_throws_iff_witness :
  fieldsOf sampleMapping sampleToday noParse subjectsAsTextValues = Throw TypeError.
Proof.
  destruct (validateSubmission_throws_iff sampleMapping sampleToday noParse
              subjectsAsTextValues) as ((_ & H) & _).
  apply H. left.
  exists {| list_selector := "subjects"; list_label := "Subjects" |}.
  split; [left; reflexivity | split; reflexivity].
Defined.

Lemma validateSubmission_queue_witness :
  exists st,
    fieldsOf sampleMapping sampleToday noParse janeValues = Normal st
    /\ (forall x, In x (missingFields st) -> In x (labelsOf sampleMapping)).
Proof.
  destruct (validateSubmission_queue sampleMapping sampleToday noParse janeValues []
              (map containAssertion
                 [ {| label := "Gender"; expValue := VStr "Female" |};
                   {| label := "Student Name"; expValue := VStr "Jane Doe" |};
                   {| label := "Hobbies"; expValue := VStr "Sports" |};
                   {| label := "Date of Birth"; expValue := VStr "05 March,2024" |} ]
               ++ map emptyAssertion
                    [ "Student Email"; "Mobile"; "Address"; "State and City";
                      "Subjects"; "Picture" ])%list)
    as (st & H1 & _ & _ & H4).
  - vm_compute. reflexivity.
  - exists st. split; [exact H1 | exact H4].
Defined.

Lemma validateSubmission_reads_only_witness :
  fieldsOf sampleMapping sampleToday noParse janeValues
  = fieldsOf sampleMapping sampleToday noParse janeWithNickname.
Proof.
  apply (validateSubmission_reads_only sampleMapping sampleToday noParse
           janeValues janeWithNickname).
  intros k Hk. unfold janeWithNickname, get.
  rewrite lookup_insert_ne; [reflexivity |].
  intros <-. vm_compute in Hk. intuition discriminate.
Defined.

Lemma falsy_expectation_origin_witness :
  exists st,
    fieldsOf sampleMapping sampleToday noParse folderPhotoValues = Normal st
    /\ ((exists m elems, In m (sm_list sampleMapping)
                         /\ "Picture" = list_label m
                         /\ get folderPhotoValues (list_selector m) = VArr elems
                         /\ In (VStr "") elems)
        \/ ("Picture" = "Picture"
            /\ exists s, get folderPhotoValues "picture" = VStr s
                         /\ endsWithSlash s = true)).
Proof.
  destruct (falsy_expectation_origin sampleMapping sampleToday noParse
              folderPhotoValues) as (st & H1 & H2).
  - reflexivity.
  - exists st. split; [exact H1 |].
    apply (H2 {| label := "Picture"; expValue := VStr "" |}); [| reflexivity].
    assert (Normal st = fieldsOf sampleMapping sampleToday noParse folderPhotoValues)
      as E by (symmetry; exact H1).
    vm_compute in E. injection E as ->. left. reflexivity.
Defined.

Lemma helpers_stay_on_their_control_witness :
  commands (uploadPicture (VStr "photo.png"))
  = Normal [ [Get (VStr "#uploadPicture"); AttachFile (VStr "photo.png")] ]
  /\ onControl Picture [Get (VStr "#uploadPicture"); AttachFile (VStr "photo.png")]
     = true
  /\ Picture = Picture.
Proof.
  destruct (helpers_stay_on_their_control Picture eq_refl) as (_ & _ & _ & H & _).
  split; [reflexivity |]. split; [reflexivity |].
  apply (H (VStr "photo.png")
           [ [Get (VStr "#uploadPicture"); AttachFile (VStr "photo.png")] ]
           [Get (VStr "#uploadPicture"); AttachFile (VStr "photo.png")]).
  - reflexivity.
  - left. reflexivity.
  - reflexivity.
Defined.

Lemma selectHobbies_clicks_witness :
  length [ [Contains (VStr "Sports");
            Siblings (VStr (selectorOf "hobbies")); Click true];
           [Contains (VStr "Music");
            Siblings (VStr (selectorOf "hobbies")); Click true] ]
  = length [VStr "Sports"; VStr "Music"].
Proof.
  destruct (selectHobbies_clicks [VStr "Sports"; VStr "Music"]) as (_ & _ & H).
  apply H. reflexivity.
Defined.

Lemma array_parameter_edges_witness :
  selectSubjects (VStr "Maths") [] = Throw TypeError
  /\ selectHobbies (VStr "Maths") [] = Throw TypeError.
Proof.
  destruct array_parameter_edges as (_ & H & _).
  apply (H (VStr "Maths") []). reflexivity.
Defined.

Lemma fill_runs_helpers_in_order_witness :
  commands (fill noValues textKeys (Some janeValues))
  = Normal
      [ [Wrap (VStr "Jane"); Then];
        [Get (VStr "#firstName"); TypeText (VStr "Jane")];
        [Wrap (VStr "Doe"); Then];
        [Get (VStr "#lastName"); TypeText (VStr "Doe")];
        [Wrap VUndefined; Then];
        [Wrap VUndefined; Then];
        [Wrap VUndefined; Then];
        [Get (VStr (selectorOf "gender" +:+ "[value=" +:+ dq +:+ "Female"
                    +:+ dq +:+ "]")); Click true];
        [Contains (VStr "Sports"); Siblings (VStr (selectorOf "hobbies"));
         Click true] ].
Proof.
  destruct (fill_runs_helpers_in_order noValues textKeys (Some janeValues))
    as (g & s & h & p & l & Hg & Hs & Hh & Hp & Hl & H).
  - reflexivity.
  - reflexivity.
  - rewrite H.
    vm_compute in Hg. injection Hg as <-.
    vm_compute in Hs. injection Hs as <-.
    vm_compute in Hh. injection Hh as <-.
    vm_compute in Hp. injection Hp as <-.
    vm_compute in Hl. injection Hl as <-.
    vm_compute. reflexivity.
Defined.

Lemma fill_throws_iff_witness :
  fill noValues textKeys (Some nullSubjectsValues) [] = Throw TypeError.
Proof.
  destruct (fill_throws_iff noValues textKeys (Some nullSubjectsValues) [])
    as ((_ & H) & _).
  apply H. left. reflexivity.
Defined.

Lemma fill_nothing_to_enter_witness :
  commands (fill noValues textKeys (Some blankValues))
  = Normal [ [Wrap (VStr ""); Then]; [Wrap VUndefined; Then];
             [Wrap VUndefined; Then]; [Wrap VUndefined; Then];
             [Wrap VUndefined; Then] ].
Proof.
  apply (fill_nothing_to_enter noValues textKeys (Some blankValues)).
  - intros field Hf. vm_compute in Hf.
    destruct Hf as [<- | [<- | [<- | [<- | [<- | []]]]]]; reflexivity.
  - reflexivity.
  - reflexivity.
  - reflexivity.
  - reflexivity.
  - reflexivity.
  - reflexivity.
Defined.

Lemma fill_reads_only_witness :
  fill noValues textKeys (Some janeValues) []
  = fill noValues textKeys (Some janeWithNickname) [].
Proof.
  apply (fill_reads_only noValues textKeys janeValues janeWithNickname).
  intros k Hk. unfold janeWithNickname, get.
  rewrite lookup_insert_ne; [reflexivity |].
  intros <-. vm_compute in Hk. intuition discriminate.
Defined.

Lemma list_loop_records_witness :
  exists st,
    fieldsOf sampleMapping sampleToday noParse twoSubjectsValues = Normal st
    /\ List.filter (fun r => String.eqb (label r) "Subjects") (populatedFields st)
       = [ {| label := "Subjects"; expValue := VStr "Maths" |};
           {| label := "Subjects"; expValue := VStr "Physics" |} ]
    /\ ~ In "Subjects" (missingFields st).
Proof.
  apply (list_loop_records sampleMapping sampleToday noParse twoSubjectsValues
           {| list_selector := "subjects"; list_label := "Subjects" |}
           [VStr "Maths"; VStr "Physics"]).
  - reflexivity.
  - reflexivity.
  - left. reflexivity.
  - reflexivity.
Defined.

Lemma fill_and_validate_agree_witness :
  exists cmds st,
    commands (fill noValues textKeys (Some emailValues)) = Normal cmds
    /\ fieldsOf sampleMapping sampleToday noParse emailValues = Normal st
    /\ (In [Get (VStr "#userEmail"); TypeText (VStr "jane@example.com")] cmds
        <-> In {| label := "Student Email"; expValue := VStr "jane@example.com" |}
               (populatedFields st)).
Proof.
  destruct (fill_and_validate_agree noValues textKeys sampleMapping sampleToday
              noParse emailValues
              {| direct_selector := "email"; direct_label := "Student Email" |})
    as (cmds & st & H1 & H2 & H3 & _).
  - reflexivity.
  - right. right. left. reflexivity.
  - left. reflexivity.
  - reflexivity.
  - reflexivity.
  - reflexivity.
  - reflexivity.
  - exists cmds, st. split; [exact H1 |]. split; [exact H2 |].
    apply (H3 (VStr "jane@example.com")).
Defined.
